(** * A shallow embedding of the leveled logger and its console handler

    The development follows [log.go] (the logger: facade, dispatch engine,
    routing table) and the console handler that is appended to it (the
    [console] package: configuration, [Run], worker loop and the two default
    formatters).

    Go strings are byte sequences and are modelled by [string]; a [[]byte]
    is a [list byte]; Go's [int], [uint] and their sized variants are
    modelled by [Z].  Library functions of Go that the code calls and whose
    text is not part of the repository ([fmt.Sprint], [fmt.Sprintf],
    [time.Time.Format]) are parameters of the sections that need them. *)

From Stdlib Require Import ZArith String Ascii DecimalString Lia.
From Stdlib.Strings Require Import Byte.
From stdpp Require Import base option list gmap relations.

(** ** Data model *)

(** Modelled from the spec: the declaration of [Level] is not in the source
    files at hand.  The nine tags and their order are those of the spec's
    data model; they are also the nine indices of [defaultColors]. *)
Inductive Level : Set :=
| DebugLevel | TraceLevel | InfoLevel | NoticeLevel | WarnLevel
| ErrorLevel | PanicLevel | AlertLevel | FatalLevel.

#[global] Instance Level_eq_dec : EqDecision Level.
Proof. solve_decision. Defined.

Definition Level_index (l : Level) : nat :=
  match l with
  | DebugLevel => 0 | TraceLevel => 1 | InfoLevel => 2 | NoticeLevel => 3
  | WarnLevel => 4 | ErrorLevel => 5 | PanicLevel => 6 | AlertLevel => 7
  | FatalLevel => 8
  end.

Definition Level_of_index (n : nat) : option Level :=
  match n with
  | 0 => Some DebugLevel | 1 => Some TraceLevel | 2 => Some InfoLevel
  | 3 => Some NoticeLevel | 4 => Some WarnLevel | 5 => Some ErrorLevel
  | 6 => Some PanicLevel | 7 => Some AlertLevel | 8 => Some FatalLevel
  | _ => None
  end.

#[global] Instance Level_countable : Countable Level :=
  inj_countable Level_index Level_of_index
    (fun l => match l with
              | DebugLevel | TraceLevel | InfoLevel | NoticeLevel | WarnLevel
              | ErrorLevel | PanicLevel | AlertLevel | FatalLevel => eq_refl
              end).

(** A value of Go's [interface{}], by dynamic type.  The cases are those of
    the type switch of the console formatters; everything else is [AOther],
    identified by an opaque description. *)
Inductive Any : Set :=
| AString (s : string)
| AInt (n : Z) | AInt8 (n : Z) | AInt16 (n : Z) | AInt32 (n : Z) | AInt64 (n : Z)
| AUint (n : Z) | AUint8 (n : Z) | AUint16 (n : Z) | AUint32 (n : Z)
| AUint64 (n : Z)
| ABool (b : bool)
| AOther (dyn : string).

(** [Field{Key, Value}] *)
Record Field : Set := mkField { Key : string; Value : Any }.

(** An instant, in nanoseconds since the Unix epoch (UTC). *)
Definition Time : Set := Z.

(** A reference to a [sync.WaitGroup] in the store of completion counters. *)
Definition WGRef : Set := nat.

(** Modelled from the spec: the declaration of [Entry] is not in the source
    files at hand.  The fields are those the spec lists (level, message,
    ordered fields, timestamp, file, line, completion counter); the
    completion counter is a reference into a shared store, because the spec
    has the barrier shared by the original Entry and by every copy sent to a
    handler. *)
Record Entry : Set := mkEntry {
  Entry_Level : Level;
  Entry_Message : string;
  Entry_Fields : list Field;
  Entry_Timestamp : Time;
  Entry_File : string;
  Entry_Line : Z;
  Entry_WG : WGRef
}.

#[global] Instance Any_eq_dec : EqDecision Any.
Proof. solve_decision. Defined.
#[global] Instance Field_eq_dec : EqDecision Field.
Proof. solve_decision. Defined.
#[global] Instance Entry_eq_dec : EqDecision Entry.
Proof. solve_decision. Defined.

(** ** The logger *)

Module Log.

(** A channel made by a handler's [Run], by its index in the store of
    channels. *)
Definition Chan : Set := nat.

(** A channel of the routing table together with the goroutines that
    consume from it: the capacity it was made with, the entries waiting in
    its buffer (oldest first), the number of consumption goroutines, and the
    entries that a goroutine has received and not yet signalled. *)
Record ChanState : Set := mkChan {
  ch_cap : nat;
  ch_buf : list Entry;
  ch_workers : nat;
  ch_busy : list Entry
}.

(** [type logger struct].  A [sync.Pool] is the list of what was put into it
    and not taken out again.  The trace pool and the duration hook, which
    only [Trace], [Tracef] and [RegisterDurationFunc] touch, are left out
    with them. *)
Record logger := mkLogger {
  fieldPool : list Field;
  entryPool : list Entry;
  channels : gmap Level (list Chan);
  timeFormat : string
}.

(** What the producer does after [HandleEntry] returns: nothing more
    ([Debug] ... [Error]), [exitFunc(code)] ([Fatal], [Fatalf]) or
    [panic(v)] ([Panic], [Panicf]). *)
Inductive Cont : Set :=
| KReturn
| KExit (code : Z)
| KPanic (v : string).

Inductive Outcome : Set :=
| Returned
| Exited (code : Z)
| Panicked (v : string).

(** The producer's position in the facade call it is executing. *)
Inductive PC : Set :=
| AtHandleEntry (e : Entry) (k : Cont)
| AtSend (e : Entry) (entry : Entry) (chs : list Chan) (k : Cont)
| AtWait (e : Entry) (k : Cont)
| AtReclaim (e : Entry) (fs : list Field) (k : Cont)
| After (k : Cont)
| Done (o : Outcome).

(** The observable events, in the order they happen. *)
Inductive Event : Set :=
| EvAdd (r : WGRef) (delta : nat) (counter : Z)
| EvSend (ch : Chan) (entry : Entry)
| EvRecv (ch : Chan) (entry : Entry)
| EvConsumed (ch : Chan) (entry : Entry)
| EvWait (r : WGRef)
| EvPutField (f : Field)
| EvPutEntry (e : Entry)
| EvExit (code : Z)
| EvPanic (v : string)
| EvRun (ch : Chan).

#[global] Instance Event_eq_dec : EqDecision Event.
Proof. solve_decision. Defined.

(** The state of the process: the default [Logger], the counters of the
    WaitGroups, the next unused WaitGroup, the channels and their consumers,
    the producer's position, and the events so far (most recent first). *)
Record State := mkState {
  st_logger : logger;
  st_wg : gmap WGRef Z;
  st_next : WGRef;
  st_chans : list ChanState;
  st_pc : PC;
  st_trace : list Event
}.

Definition set_logger (l : logger) (s : State) : State :=
  mkState l (st_wg s) (st_next s) (st_chans s) (st_pc s) (st_trace s).

Definition set_pc (pc : PC) (s : State) : State :=
  mkState (st_logger s) (st_wg s) (st_next s) (st_chans s) pc (st_trace s).

Definition set_chan (ch : Chan) (c : ChanState) (s : State) : State :=
  mkState (st_logger s) (st_wg s) (st_next s) (<[ch:=c]> (st_chans s))
    (st_pc s) (st_trace s).

Definition log_event (ev : Event) (s : State) : State :=
  mkState (st_logger s) (st_wg s) (st_next s) (st_chans s) (st_pc s)
    (ev :: st_trace s).

(** The counter of a WaitGroup; one that was never touched reads zero. *)
Definition wg_get (s : State) (r : WGRef) : Z := default 0%Z (st_wg s !! r).

(** [WG.Add(d)] *)
Definition wg_add (r : WGRef) (d : Z) (s : State) : State :=
  mkState (st_logger s) (<[r:=(wg_get s r + d)%Z]> (st_wg s)) (st_next s)
    (st_chans s) (st_pc s) (st_trace s).

(** [l.fieldPool.Put(f)] and [l.entryPool.Put(e)] *)
Definition put_field (f : Field) (s : State) : State :=
  let l := st_logger s in
  set_logger (mkLogger (f :: fieldPool l) (entryPool l) (channels l) (timeFormat l)) s.

Definition put_entry (e : Entry) (s : State) : State :=
  let l := st_logger s in
  set_logger (mkLogger (fieldPool l) (e :: entryPool l) (channels l) (timeFormat l)) s.

(** [ch <- entry].  The send completes when the buffer has room, or, on an
    unbuffered channel, when a consumption goroutine is ready to receive;
    otherwise the producer stays blocked.  A channel that was never made is
    a nil channel, on which a send blocks for ever. *)
Definition send (ch : Chan) (entry : Entry) (s : State) : option State :=
  c ← st_chans s !! ch;
  if decide (length (ch_buf c) < ch_cap c)
  then Some (log_event (EvSend ch entry)
         (set_chan ch (mkChan (ch_cap c) (ch_buf c ++ [entry]) (ch_workers c) (ch_busy c)) s))
  else if decide (ch_cap c = 0 ∧ length (ch_busy c) < ch_workers c)
  then Some (log_event (EvSend ch entry)
         (set_chan ch (mkChan (ch_cap c) (ch_buf c) (ch_workers c) (ch_busy c ++ [entry])) s))
  else None.

(** One step of the producer: [HandleEntry] statement by statement, then
    the continuation of the facade function that called it.  [None] when the
    producer is blocked or has finished. *)
Definition prod_step (s : State) : option State :=
  match st_pc s with
  | AtHandleEntry e k =>
      match channels (st_logger s) !! Entry_Level e with
      | Some chs =>
          let s := wg_add (Entry_WG e) (Z.of_nat (length chs)) s in
          let s := log_event (EvAdd (Entry_WG e) (length chs) (wg_get s (Entry_WG e))) s in
          let entry := e in
          Some (set_pc (AtSend e entry chs k) s)
      | None => Some (set_pc (AtReclaim e (Entry_Fields e) k) s)
      end
  | AtSend e entry (ch :: chs) k =>
      s ← send ch entry s; Some (set_pc (AtSend e entry chs k) s)
  | AtSend e entry [] k => Some (set_pc (AtWait e k) s)
  | AtWait e k =>
      if decide (wg_get s (Entry_WG e) = 0%Z)
      then Some (set_pc (AtReclaim e (Entry_Fields e) k) (log_event (EvWait (Entry_WG e)) s))
      else None
  | AtReclaim e (f :: fs) k =>
      Some (set_pc (AtReclaim e fs k) (log_event (EvPutField f) (put_field f s)))
  | AtReclaim e [] k =>
      Some (set_pc (After k) (log_event (EvPutEntry e) (put_entry e s)))
  | After KReturn => Some (set_pc (Done Returned) s)
  | After (KExit code) => Some (set_pc (Done (Exited code)) (log_event (EvExit code) s))
  | After (KPanic v) => Some (set_pc (Done (Panicked v)) (log_event (EvPanic v) s))
  | Done _ => None
  end.

(** A consumption goroutine of channel [ch] that is not busy receives the
    oldest buffered entry. *)
Definition recv (ch : Chan) (s : State) : option State :=
  c ← st_chans s !! ch;
  match ch_buf c with
  | x :: buf =>
      if decide (length (ch_busy c) < ch_workers c)
      then Some (log_event (EvRecv ch x)
             (set_chan ch (mkChan (ch_cap c) buf (ch_workers c) (ch_busy c ++ [x])) s))
      else None
  | [] => None
  end.

(** Modelled from the spec: [Entry.Consumed] is not in the source files at
    hand.  By the handler contract a handler calls the completion signal
    once for every entry it received, and the signal decrements the barrier
    of the original Entry whichever copy the handler holds. *)
Definition consumed (ch : Chan) (i : nat) (s : State) : option State :=
  c ← st_chans s !! ch;
  x ← ch_busy c !! i;
  Some (log_event (EvConsumed ch x)
         (wg_add (Entry_WG x) (-1)
            (set_chan ch (mkChan (ch_cap c) (ch_buf c) (ch_workers c) (delete i (ch_busy c))) s))).

(** The steps of the whole process: the producer, or one of the handlers'
    goroutines. *)
Inductive Action : Set :=
| Produce
| Recv (ch : Chan)
| Consume (ch : Chan) (i : nat).

Definition do_action (a : Action) (s : State) : option State :=
  match a with
  | Produce => prod_step s
  | Recv ch => recv ch s
  | Consume ch i => consumed ch i s
  end.

Definition step (s s' : State) : Prop := ∃ a, do_action a s = Some s'.

Definition reachable (s0 s : State) : Prop := rtc step s0 s.

(** The producer on its own, for at most [n] steps. *)
Fixpoint prod_run (n : nat) (s : State) : State :=
  match n with
  | O => s
  | S n' => match prod_step s with Some s' => prod_run n' s' | None => s end
  end.

(** A scheduler: the producer when it can move, otherwise the first
    goroutine that can. *)
Definition candidates (s : State) : list Action :=
  Produce :: flat_map (λ ch, [Consume ch 0; Recv ch]) (seq 0 (length (st_chans s))).

Fixpoint first_enabled (acts : list Action) (s : State) : option State :=
  match acts with
  | [] => None
  | a :: acts' =>
      match do_action a s with
      | Some s' => Some s'
      | None => first_enabled acts' s
      end
  end.

Definition sched_step (s : State) : option State := first_enabled (candidates s) s.

Fixpoint run (n : nat) (s : State) : State :=
  match n with
  | O => s
  | S n' => match sched_step s with Some s' => run n' s' | None => s end
  end.

(** Modelled from the spec: [newEntry] is not in the source files at hand.
    The facade creates an Entry from pooled storage and populates it once:
    an Entry of the pool when there is one, else what the pool's [New]
    makes ([new(Entry)], with a WaitGroup of its own); level, message and
    fields are the arguments, the timestamp is the current instant, and no
    caller position is recorded. *)
Definition newEntry (level : Level) (message : string) (fields : list Field)
  (now : Time) (s : State) : Entry * State :=
  let l := st_logger s in
  match entryPool l with
  | e :: pool =>
      (mkEntry level message fields now "" 0 (Entry_WG e),
       set_logger (mkLogger (fieldPool l) pool (channels l) (timeFormat l)) s)
  | [] =>
      (mkEntry level message fields now "" 0 (st_next s),
       mkState l (st_wg s) (S (st_next s)) (st_chans s) (st_pc s) (st_trace s))
  end.

(** [l.HandleEntry(e)], followed by [k] *)
Definition HandleEntry (e : Entry) (k : Cont) (s : State) : State :=
  set_pc (AtHandleEntry e k) s.

(** [F]: a Field of the pool (a new one when the pool is empty), with key
    and value set *)
Definition F (key : string) (value : Any) (s : State) : Field * State :=
  let l := st_logger s in
  (mkField key value,
   set_logger (mkLogger (tail (fieldPool l)) (entryPool l) (channels l) (timeFormat l)) s).

(** [SetTimeFormat] *)
Definition SetTimeFormat (format : string) (s : State) : State :=
  let l := st_logger s in
  set_logger (mkLogger (fieldPool l) (entryPool l) (channels l) format) s.

(** [type Handler interface { Run() chan<- Entry }]: [Run] makes (or hands
    out) a channel and starts whatever consumes from it. *)
Record Handler := mkHandler { Run : State → Chan * State }.

(** The body of the loop of [RegisterHandler] *)
Definition registerLevel (ch : Chan) (l : logger) (level : Level) : logger :=
  let channels' :=
    match channels l !! level with
    | Some chs => chs
    | None => []
    end in
  mkLogger (fieldPool l) (entryPool l) (<[level:=channels' ++ [ch]]> (channels l))
    (timeFormat l).

(** [RegisterHandler]; the call of [handler.Run()] is recorded as an
    event. *)
Definition RegisterHandler (handler : Handler) (levels : list Level) (s : State)
  : State :=
  let '(ch, s) := Run handler s in
  let s := log_event (EvRun ch) s in
  set_logger (foldl (registerLevel ch) (st_logger s) levels) s.

(** A handler whose [Run] makes a channel of capacity [cap] and starts
    [workers] goroutines that receive from it. *)
Definition channelHandler (cap workers : nat) : Handler :=
  mkHandler (λ s,
    (length (st_chans s),
     mkState (st_logger s) (st_wg s) (st_next s)
       (st_chans s ++ [mkChan cap [] workers []]) (st_pc s) (st_trace s))).

Section Facade.

(** [fmt.Sprint] and [fmt.Sprintf] *)
Variable Sprint : list Any → string.
Variable Sprintf : string → list Any → string.

(** A facade call: build the message, make the Entry, dispatch, continue. *)
Definition logAt (level : Level) (message : string) (k : Cont) (now : Time)
  (s : State) : State :=
  let '(e, s) := newEntry level message [] now s in
  HandleEntry e k s.

Definition Debug (v : list Any) := logAt DebugLevel (Sprint v) KReturn.
Definition Info (v : list Any) := logAt InfoLevel (Sprint v) KReturn.
Definition Warn (v : list Any) := logAt WarnLevel (Sprint v) KReturn.
Definition Error (v : list Any) := logAt ErrorLevel (Sprint v) KReturn.
Definition Fatal (v : list Any) := logAt FatalLevel (Sprint v) (KExit 1).

Definition Debugf (msg : string) (v : list Any) := logAt DebugLevel (Sprintf msg v) KReturn.
Definition Infof (msg : string) (v : list Any) := logAt InfoLevel (Sprintf msg v) KReturn.
Definition Warnf (msg : string) (v : list Any) := logAt WarnLevel (Sprintf msg v) KReturn.
Definition Errorf (msg : string) (v : list Any) := logAt ErrorLevel (Sprintf msg v) KReturn.
Definition Fatalf (msg : string) (v : list Any) := logAt FatalLevel (Sprintf msg v) (KExit 1).

Definition Panic (v : list Any) (now : Time) (s : State) : State :=
  let s' := Sprint v in
  logAt ErrorLevel s' (KPanic s') now s.

Definition Panicf (msg : string) (v : list Any) (now : Time) (s : State) : State :=
  let s' := Sprintf msg v in
  logAt ErrorLevel s' (KPanic s') now s.

End Facade.

(** [WithFields] *)
Definition WithFields (fields : list Field) (now : Time) (s : State)
  : Entry * State :=
  newEntry InfoLevel "" fields now s.

End Log.

(** ** The console handler *)

Module Console.

(** [log.FilenameDisplay]: only the two modes the console tests for. *)
Inductive FilenameDisplay : Set := Lshortfile | Llongfile.

#[global] Instance FilenameDisplay_eq_dec : EqDecision FilenameDisplay.
Proof. solve_decision. Defined.

(** [type Formatter func(e *log.Entry) []byte].  A Formatter is a closure:
    [fm_scratch] is the byte buffer it captured, [fm_body] its code, which
    is given the buffer and returns the buffer it leaves behind, or [None]
    when it runs into a run-time panic. *)
Record Formatter : Set := mkFormatter {
  fm_scratch : list byte;
  fm_body : list byte → Entry → option (list byte)
}.

(** [b = formatter(e)] *)
Definition format (f : Formatter) (e : Entry) : option (list byte * Formatter) :=
  b ← fm_body f (fm_scratch f) e;
  Some (b, mkFormatter b (fm_body f)).

(** [type FormatFunc func() Formatter].  [New] stores the bound method
    [c.defaultFormatFunc], which reads the fields of [c] when it is called;
    [FFDefault] stands for that method value, [FFCustom] for a factory given
    to [SetFormatFunc]. *)
Inductive FormatFunc : Set :=
| FFDefault
| FFCustom (fn : unit → Formatter).

(** [type Console struct]; [writer] names the sink. *)
Record Console : Set := mkConsole {
  buffer : Z;
  numWorkers : Z;
  colors : Level → string;
  writer : nat;
  formatFunc : FormatFunc;
  timestampFormat : string;
  gopath : string;
  fileDisplay : FilenameDisplay;
  displayColor : bool
}.

Definition defaultTS : string := "2006-01-02T15:04:05.000000000Z07:00".
Definition space : byte := " "%byte.
Definition equals : byte := "="%byte.
Definition newLine : byte := x0a.
Definition colon : byte := ":"%byte.
Definition slash : ascii := "/"%char.
Definition Stderr : nat := 2.

(** [SetFilenameDisplay], [DisplayColor], [SetTimestampFormat], [SetWriter],
    [SetFormatFunc] *)
Definition SetFilenameDisplay (fd : FilenameDisplay) (c : Console) : Console :=
  mkConsole (buffer c) (numWorkers c) (colors c) (writer c) (formatFunc c)
    (timestampFormat c) (gopath c) fd (displayColor c).

Definition DisplayColor (color : bool) (c : Console) : Console :=
  mkConsole (buffer c) (numWorkers c) (colors c) (writer c) (formatFunc c)
    (timestampFormat c) (gopath c) (fileDisplay c) color.

Definition SetTimestampFormat (format : string) (c : Console) : Console :=
  mkConsole (buffer c) (numWorkers c) (colors c) (writer c) (formatFunc c)
    format (gopath c) (fileDisplay c) (displayColor c).

Definition SetWriter (w : nat) (c : Console) : Console :=
  mkConsole (buffer c) (numWorkers c) (colors c) w (formatFunc c)
    (timestampFormat c) (gopath c) (fileDisplay c) (displayColor c).

Definition SetFormatFunc (fn : unit → Formatter) (c : Console) : Console :=
  mkConsole (buffer c) (numWorkers c) (colors c) (writer c) (FFCustom fn)
    (timestampFormat c) (gopath c) (fileDisplay c) (displayColor c).

(** The calls [SetBuffersAndWorkers] makes into other packages. *)
Inductive Call : Set :=
| StdlogPrintln (v : list Any)
| LogWarn (v : list Any).

Definition invalidWorkers : string :=
  "Invalid number of workers specified, setting to 1".

(** [SetBuffersAndWorkers]: the configured Console, and the calls made on
    the way, in order. *)
Definition SetBuffersAndWorkers (size workers : Z) (c : Console)
  : Console * list Call :=
  let c := mkConsole size (numWorkers c) (colors c) (writer c) (formatFunc c)
             (timestampFormat c) (gopath c) (fileDisplay c) (displayColor c) in
  let '(workers, calls) :=
    if decide (workers = 0%Z)
    then (1%Z, [StdlogPrintln [AString invalidWorkers]; LogWarn [AString invalidWorkers]])
    else (workers, []) in
  (mkConsole (buffer c) workers (colors c) (writer c) (formatFunc c)
     (timestampFormat c) (gopath c) (fileDisplay c) (displayColor c), calls).

(** [append(b, s...)] for a string [s] *)
Definition appendString (b : list byte) (s : string) : list byte :=
  b ++ list_byte_of_string s.

(** [strconv.AppendInt(b, n, 10)] and [strconv.AppendUint(b, n, 10)] *)
Definition AppendInt (b : list byte) (n : Z) : list byte :=
  appendString b (NilZero.string_of_int (Z.to_int n)).

Definition AppendUint (b : list byte) (n : Z) : list byte :=
  appendString b (NilZero.string_of_int (Z.to_int n)).

(** [strconv.AppendBool] *)
Definition AppendBool (b : list byte) (v : bool) : list byte :=
  appendString b (if v then "true" else "false")%string.

(** [for i = 0; i < 6-len(lvl); i++ { b = append(b, space) }], by the
    number of iterations left *)
Fixpoint padLoop (n : nat) (b : list byte) : list byte :=
  match n with
  | O => b
  | S n' => padLoop n' (b ++ [space])
  end.

Definition padLevel (b : list byte) (lvl : string) : list byte :=
  padLoop (Z.to_nat (6 - Z.of_nat (String.length lvl))%Z) b.

(** [file[i:]], for [i] within bounds *)
Definition sliceFrom (i : nat) (file : string) : string :=
  substring i (String.length file - i) file.

(** The short-filename loop, by the value of [i]:
    [for i = len(file) - 1; i > 0; i-- {
       if file[i] == '/' { file = file[i+1:]; break } }] *)
Fixpoint shortLoop (file : string) (i : nat) : string :=
  match i with
  | O => file
  | S j =>
      if decide (String.get i file = Some slash)
      then sliceFrom (i + 1) file
      else shortLoop file j
  end.

Definition shortFile (file : string) : string :=
  shortLoop file (Z.to_nat (Z.of_nat (String.length file) - 1)%Z).

(** [file[len(c.gopath):]]; slicing beyond the end of [file] is a run-time
    panic. *)
Definition longFile (c : Console) (file : string) : option string :=
  if decide (String.length (gopath c) ≤ String.length file)
  then Some (sliceFrom (String.length (gopath c)) file)
  else None.

(** The [if c.fileDisplay == log.Lshortfile { ... } else { ... }] of the
    formatters *)
Definition displayFile (c : Console) (file : string) : option string :=
  if decide (fileDisplay c = Lshortfile) then Some (shortFile file)
  else longFile c file.

(** [int(n)] for a [uint] [n], and [i++] on an [int], both of 64 bits *)
Definition int_of_uint (n : Z) : Z :=
  if decide (n < 2 ^ 63)%Z then n else (n - 2 ^ 64)%Z.

Definition incr_int (i : Z) : Z :=
  if decide (i + 1 < 2 ^ 63)%Z then (i + 1)%Z else (i + 1 - 2 ^ 64)%Z.

(** A goroutine started by [Run]: the channel it consumes from is the one
    [Run] made; [wk_formatter] is the Formatter it got for itself. *)
Record Worker : Set := mkWorker { wk_formatter : Formatter }.

(** What [Run] made: the channel (its capacity) and the goroutines consuming
    from it. *)
Record Started : Set := mkStarted { run_cap : Z; run_workers : list Worker }.

(** What a consumption goroutine does with an entry. *)
Inductive Effect : Set :=
| Write (w : nat) (b : list byte)
| Consumed (e : Entry).

Section Formatting.

(** [t.Format(layout)] of package [time], [lvl.String()] of the absent
    level declarations, [fmt.Sprintf("%v", x)], the escape sequence
    [log.Reset], the table [defaultColors], [os.Getenv] and
    [string(os.PathSeparator)]. *)
Variable Time_Format : Time → string → string.
Variable Level_String : Level → string.
Variable Sprintf_v : Any → string.
Variable Reset : string.
Variable defaultColors : Level → string.
Variable Getenv : string → string.
Variable PathSeparator : string.

(** [New] *)
Definition New : Console :=
  mkConsole 0 1 defaultColors Stderr FFDefault defaultTS "" Lshortfile true.

(** The type switch on [f.Value] *)
Definition appendValue (b : list byte) (v : Any) : list byte :=
  match v with
  | AString s => appendString b s
  | AInt n | AInt8 n | AInt16 n | AInt32 n | AInt64 n => AppendInt b n
  | AUint n | AUint8 n | AUint16 n | AUint32 n | AUint64 n => AppendUint b n
  | ABool v => AppendBool b v
  | AOther _ => appendString b (Sprintf_v v)
  end.

(** [for _, f := range e.Fields] of the plain formatter *)
Fixpoint plainFields (b : list byte) (fs : list Field) : list byte :=
  match fs with
  | [] => b
  | f :: fs' =>
      let b := b ++ [space] in
      let b := appendString b (Key f) in
      let b := b ++ [equals] in
      plainFields (appendValue b (Value f)) fs'
  end.

(** [for _, f := range e.Fields] of the coloured formatter *)
Fixpoint colorFields (color : string) (b : list byte) (fs : list Field)
  : list byte :=
  match fs with
  | [] => b
  | f :: fs' =>
      let b := b ++ [space] in
      let b := appendString b color in
      let b := appendString b (Key f) in
      let b := appendString b Reset in
      let b := b ++ [equals] in
      colorFields color (appendValue b (Value f)) fs'
  end.

(** The closure returned by [defaultFormatFunc] when [displayColor] is
    false.  [b] is the scratch buffer the closure captured; [b[0:0]]
    keeps its storage and drops its content. *)
Definition plainFormatter (c : Console) (b : list byte) (e : Entry)
  : option (list byte) :=
  let b := take 0 b in
  b ←
    (if decide (Entry_Line e = 0%Z) then
       let b := appendString b (Time_Format (Entry_Timestamp e) (timestampFormat c)) in
       let b := b ++ [space] in
       let lvl := Level_String (Entry_Level e) in
       let b := padLevel b lvl in
       let b := appendString b lvl in
       let b := b ++ [space] in
       Some (appendString b (Entry_Message e))
     else
       file ← displayFile c (Entry_File e);
       let b := appendString b (Time_Format (Entry_Timestamp e) (timestampFormat c)) in
       let b := b ++ [space] in
       let lvl := Level_String (Entry_Level e) in
       let b := padLevel b lvl in
       let b := appendString b lvl in
       let b := b ++ [space] in
       let b := appendString b file in
       let b := b ++ [colon] in
       let b := AppendInt b (Entry_Line e) in
       let b := b ++ [space] in
       Some (appendString b (Entry_Message e)));
  let b := plainFields b (Entry_Fields e) in
  Some (b ++ [newLine]).

(** The closure returned when [displayColor] is true. *)
Definition colorFormatter (c : Console) (b : list byte) (e : Entry)
  : option (list byte) :=
  let b := take 0 b in
  let color := colors c (Entry_Level e) in
  b ←
    (if decide (Entry_Line e = 0%Z) then
       let b := appendString b (Time_Format (Entry_Timestamp e) (timestampFormat c)) in
       let b := b ++ [space] in
       let b := appendString b color in
       let lvl := Level_String (Entry_Level e) in
       let b := padLevel b lvl in
       let b := appendString b lvl in
       let b := appendString b Reset in
       let b := b ++ [space] in
       Some (appendString b (Entry_Message e))
     else
       file ← displayFile c (Entry_File e);
       let b := appendString b (Time_Format (Entry_Timestamp e) (timestampFormat c)) in
       let b := b ++ [space] in
       let b := appendString b color in
       let lvl := Level_String (Entry_Level e) in
       let b := padLevel b lvl in
       let b := appendString b lvl in
       let b := appendString b Reset in
       let b := b ++ [space] in
       let b := appendString b file in
       let b := b ++ [colon] in
       let b := AppendInt b (Entry_Line e) in
       let b := b ++ [space] in
       Some (appendString b (Entry_Message e)));
  let b := colorFields color b (Entry_Fields e) in
  Some (b ++ [newLine]).

(** [defaultFormatFunc]: a new closure, whose buffer [b] is nil *)
Definition defaultFormatFunc (c : Console) : Formatter :=
  if displayColor c then mkFormatter [] (colorFormatter c)
  else mkFormatter [] (plainFormatter c).

(** [c.formatFunc()] *)
Definition callFormatFunc (c : Console) : Formatter :=
  match formatFunc c with
  | FFDefault => defaultFormatFunc c
  | FFCustom fn => fn tt
  end.

(** [handleLog], up to its loop: [formatter := c.formatFunc()] *)
Definition handleLog (c : Console) : Worker := mkWorker (callFormatFunc c).

(** [handleLog], the body of its loop for one entry *)
Definition handleLog_body (c : Console) (w : Worker) (e : Entry)
  : option (list Effect * Worker) :=
  '(b, f) ← format (wk_formatter w) e;
  Some ([Write (writer c) b; Consumed e], mkWorker f).

(** [for i := 0; i <= int(c.numWorkers); i++ { go c.handleLog(ch) }].
    The loop need not end (when [int(c.numWorkers)] is the largest [int],
    every [i] passes the test), hence the fuel. *)
Fixpoint runLoop (fuel : nat) (c : Console) (i n : Z) (ws : list Worker)
  : option (list Worker) :=
  match fuel with
  | O => None
  | S fuel' =>
      if decide (i ≤ n)%Z
      then runLoop fuel' c (incr_int i) n (ws ++ [handleLog c])
      else Some ws
  end.

(** [Run] *)
Definition Run (fuel : nat) (c : Console) : option (Console * Started) :=
  let c :=
    if decide (fileDisplay c = Llongfile) then
      let gp := Getenv "GOPATH" in
      let gp :=
        if decide (String.length gp ≠ 0)
        then (gp ++ PathSeparator ++ "src" ++ PathSeparator)%string
        else gp in
      mkConsole (buffer c) (numWorkers c) (colors c) (writer c) (formatFunc c)
        (timestampFormat c) gp (fileDisplay c) (displayColor c)
    else c in
  ws ← runLoop fuel c 0 (int_of_uint (numWorkers c)) [];
  Some (c, mkStarted (buffer c) ws).

End Formatting.

Section Calls.

Variable Sprint : list Any → string.

(** Modelled from the spec: the package-level [log.Warn] is not in the
    source files at hand; the warning is emitted through the facade, that
    is by [Warn] of the default [Logger].  [stdlog.Println] writes to Go's
    standard logger, which is not part of the state. *)
Definition perform (call : Call) (now : Time) (s : Log.State) : Log.State :=
  match call with
  | StdlogPrintln _ => s
  | LogWarn v => Log.Warn Sprint v now s
  end.

End Calls.

End Console.

(** ** Vocabulary of the statements about dispatch *)

Module Dispatch.
Import Log.

(** The steps of the process, one rule for each statement of the producer
    and each move of a consumption goroutine. *)
Inductive Transition : State → State → Prop :=
| T_add s e k chs :
    st_pc s = AtHandleEntry e k →
    channels (st_logger s) !! Entry_Level e = Some chs →
    Transition s
      (set_pc (AtSend e e chs k)
         (log_event (EvAdd (Entry_WG e) (length chs)
                       (wg_get s (Entry_WG e) + Z.of_nat (length chs))%Z)
            (wg_add (Entry_WG e) (Z.of_nat (length chs)) s)))
| T_skip s e k :
    st_pc s = AtHandleEntry e k →
    channels (st_logger s) !! Entry_Level e = None →
    Transition s (set_pc (AtReclaim e (Entry_Fields e) k) s)
| T_send_buffered s e entry ch chs k c :
    st_pc s = AtSend e entry (ch :: chs) k →
    st_chans s !! ch = Some c →
    length (ch_buf c) < ch_cap c →
    Transition s
      (set_pc (AtSend e entry chs k)
         (log_event (EvSend ch entry)
            (set_chan ch (mkChan (ch_cap c) (ch_buf c ++ [entry]) (ch_workers c) (ch_busy c)) s)))
| T_send_direct s e entry ch chs k c :
    st_pc s = AtSend e entry (ch :: chs) k →
    st_chans s !! ch = Some c →
    ¬ length (ch_buf c) < ch_cap c →
    ch_cap c = 0 →
    length (ch_busy c) < ch_workers c →
    Transition s
      (set_pc (AtSend e entry chs k)
         (log_event (EvSend ch entry)
            (set_chan ch (mkChan (ch_cap c) (ch_buf c) (ch_workers c) (ch_busy c ++ [entry])) s)))
| T_sent s e entry k :
    st_pc s = AtSend e entry [] k →
    Transition s (set_pc (AtWait e k) s)
| T_wait s e k :
    st_pc s = AtWait e k →
    wg_get s (Entry_WG e) = 0%Z →
    Transition s
      (set_pc (AtReclaim e (Entry_Fields e) k) (log_event (EvWait (Entry_WG e)) s))
| T_put_field s e f fs k :
    st_pc s = AtReclaim e (f :: fs) k →
    Transition s (set_pc (AtReclaim e fs k) (log_event (EvPutField f) (put_field f s)))
| T_put_entry s e k :
    st_pc s = AtReclaim e [] k →
    Transition s (set_pc (After k) (log_event (EvPutEntry e) (put_entry e s)))
| T_return s :
    st_pc s = After KReturn →
    Transition s (set_pc (Done Returned) s)
| T_exit s code :
    st_pc s = After (KExit code) →
    Transition s (set_pc (Done (Exited code)) (log_event (EvExit code) s))
| T_panic s v :
    st_pc s = After (KPanic v) →
    Transition s (set_pc (Done (Panicked v)) (log_event (EvPanic v) s))
| T_recv s ch c x buf :
    st_chans s !! ch = Some c →
    ch_buf c = x :: buf →
    length (ch_busy c) < ch_workers c →
    Transition s
      (log_event (EvRecv ch x)
         (set_chan ch (mkChan (ch_cap c) buf (ch_workers c) (ch_busy c ++ [x])) s))
| T_consumed s ch c i x :
    st_chans s !! ch = Some c →
    ch_busy c !! i = Some x →
    Transition s
      (log_event (EvConsumed ch x)
         (wg_add (Entry_WG x) (-1)
            (set_chan ch (mkChan (ch_cap c) (ch_buf c) (ch_workers c) (delete i (ch_busy c))) s))).

(** The continuation of a position, the outcome a continuation leads to. *)
Definition pc_cont (pc : PC) : option Cont :=
  match pc with
  | AtHandleEntry _ k | AtSend _ _ _ k | AtWait _ k | AtReclaim _ _ k | After k => Some k
  | Done _ => None
  end.

Definition outcome_of (k : Cont) : Outcome :=
  match k with
  | KReturn => Returned
  | KExit code => Exited code
  | KPanic v => Panicked v
  end.

(** [HandleEntry] has returned. *)
Definition returned (pc : PC) : Prop :=
  match pc with After _ | Done _ => True | _ => False end.

(** The channels sent to, in the order of the sends. *)
Fixpoint sends (tr : list Event) : list Chan :=
  match tr with
  | [] => []
  | EvSend ch _ :: pre => sends pre ++ [ch]
  | _ :: pre => sends pre
  end.

(** The number of completion signals. *)
Fixpoint consumedCount (tr : list Event) : nat :=
  match tr with
  | [] => 0
  | EvConsumed _ _ :: pre => S (consumedCount pre)
  | _ :: pre => consumedCount pre
  end.

(** The Fields put back into the pool, in the order of the puts. *)
Fixpoint putFields (tr : list Event) : list Field :=
  match tr with
  | [] => []
  | EvPutField f :: pre => putFields pre ++ [f]
  | _ :: pre => putFields pre
  end.

(** Events of delivery: a counter set, a send, a wait on the barrier. *)
Definition is_delivery (ev : Event) : Prop :=
  match ev with EvAdd _ _ _ | EvSend _ _ | EvWait _ => True | _ => False end.

(** Events of reclamation. *)
Definition is_reclaim (ev : Event) : Prop :=
  match ev with EvPutField _ | EvPutEntry _ => True | _ => False end.

(** Events that end the facade call otherwise than by returning. *)
Definition is_fatal (ev : Event) : Prop :=
  match ev with EvExit _ | EvPanic _ => True | _ => False end.

(** The facade call can only return: no exit or panic has happened, and
    none is ahead. *)
Definition calm (s : State) : Prop :=
  Forall (λ ev, ¬ is_fatal ev) (st_trace s)
  ∧ (pc_cont (st_pc s) = Some KReturn ∨ st_pc s = Done Returned).

(** The Entry a facade call makes, and the state in which it calls
    [HandleEntry]. *)
Definition made (level : Level) (message : string) (now : Time) (s0 : State)
  : Entry :=
  (newEntry level message [] now s0).1.

Definition called (level : Level) (message : string) (k : Cont) (now : Time)
  (s0 : State) : State :=
  logAt level message k now s0.

(** Entries held by channel buffers and by busy goroutines. *)
Definition held (c : ChanState) : nat := length (ch_buf c) + length (ch_busy c).

Definition inflight (s : State) : nat := sum_list_with held (st_chans s).

(** Nothing is being dispatched: no entry is buffered or being handled,
    every WaitGroup is at zero, and no event has been observed yet. *)
Definition idle (s : State) : Prop :=
  Forall (λ c, ch_buf c = [] ∧ ch_busy c = []) (st_chans s)
  ∧ map_Forall (λ _ n, n = 0%Z) (st_wg s)
  ∧ st_trace s = [].

(** Every channel has a goroutine consuming from it, and the channels
    registered for [level] have been made. *)
Definition served (level : Level) (s : State) : Prop :=
  Forall (λ c, 1 ≤ ch_workers c) (st_chans s)
  ∧ Forall (λ ch, ch < length (st_chans s))
      (default [] (channels (st_logger s) !! level)).

(** The channels registered for a level. *)
Definition registered (level : Level) (s : State) : list Chan :=
  default [] (channels (st_logger s) !! level).

(** A bound on the number of steps left, for the scheduler. *)
Definition pc_weight (s : State) : nat :=
  match st_pc s with
  | AtHandleEntry e _ =>
      3 * length (registered (Entry_Level e) s) + length (Entry_Fields e) + 5
  | AtSend e _ chs _ => 3 * length chs + length (Entry_Fields e) + 4
  | AtWait e _ => length (Entry_Fields e) + 3
  | AtReclaim _ fs _ => length fs + 2
  | After _ => 1
  | Done _ => 0
  end.

Definition chan_weight (c : ChanState) : nat :=
  2 * length (ch_buf c) + length (ch_busy c).

Definition weight (s : State) : nat :=
  pc_weight s + sum_list_with chan_weight (st_chans s).

(** The sum of the deltas given to [WG.Add], and the Entries put back into
    the pool (most recent first). *)
Fixpoint added (tr : list Event) : nat :=
  match tr with
  | [] => 0
  | EvAdd _ d _ :: pre => d + added pre
  | _ :: pre => added pre
  end.

Fixpoint putEntries (tr : list Event) : list Entry :=
  match tr with
  | [] => []
  | EvPutEntry e :: pre => e :: putEntries pre
  | _ :: pre => putEntries pre
  end.

Section Invariant.

(** The dispatch of [e], to be followed by [k], that starts in [s0]. *)
Variables (e : Entry) (k : Cont) (s0 : State).

(** The channels [e] is to be sent to. *)
Definition targets : list Chan := registered (Entry_Level e) s0.

(** What holds of an event, given the events before it. *)
Definition ev_ok (ev : Event) (pre : list Event) : Prop :=
  match ev with
  | EvAdd r d c =>
      pre = [] ∧ r = Entry_WG e ∧ d = length targets ∧ c = Z.of_nat (length targets)
  | EvSend ch x =>
      x = e ∧ EvAdd (Entry_WG e) (length targets) (Z.of_nat (length targets)) ∈ pre
  | EvRecv ch x => x = e
  | EvConsumed ch x => x = e ∧ consumedCount pre < length (sends pre)
  | EvWait r =>
      r = Entry_WG e ∧ consumedCount pre = length targets ∧ sends pre = targets
  | EvPutField f =>
      consumedCount pre = length targets ∧ sends pre = targets
  | EvPutEntry e' =>
      e' = e ∧ consumedCount pre = length targets ∧ sends pre = targets
      ∧ putFields pre = Entry_Fields e
  | EvExit code =>
      k = KExit code ∧ EvPutEntry e ∈ pre
      ∧ consumedCount pre = length targets ∧ sends pre = targets
  | EvPanic v =>
      k = KPanic v ∧ EvPutEntry e ∈ pre
      ∧ consumedCount pre = length targets ∧ sends pre = targets
  | EvRun _ => False
  end.

Fixpoint trace_wf (tr : list Event) : Prop :=
  match tr with
  | [] => True
  | ev :: pre => ev_ok ev pre ∧ trace_wf pre
  end.

(** What holds at each position of the producer. *)
Definition phase (pc : PC) (tr : list Event) : Prop :=
  match pc with
  | AtHandleEntry e' k' => e' = e ∧ k' = k ∧ tr = []
  | AtSend e' entry rest k' =>
      e' = e ∧ entry = e ∧ k' = k
      ∧ sends tr ++ rest = targets ∧ added tr = length targets
      ∧ putFields tr = [] ∧ putEntries tr = []
      ∧ EvAdd (Entry_WG e) (length targets) (Z.of_nat (length targets)) ∈ tr
  | AtWait e' k' =>
      e' = e ∧ k' = k
      ∧ sends tr = targets ∧ added tr = length targets
      ∧ putFields tr = [] ∧ putEntries tr = []
  | AtReclaim e' fs k' =>
      e' = e ∧ k' = k
      ∧ sends tr = targets ∧ added tr = consumedCount tr
      ∧ consumedCount tr = length targets
      ∧ putFields tr ++ fs = Entry_Fields e ∧ putEntries tr = []
  | After k' =>
      k' = k
      ∧ sends tr = targets ∧ added tr = consumedCount tr
      ∧ consumedCount tr = length targets
      ∧ putFields tr = Entry_Fields e ∧ putEntries tr = [e]
  | Done o =>
      o = outcome_of k
      ∧ sends tr = targets ∧ added tr = consumedCount tr
      ∧ consumedCount tr = length targets
      ∧ putFields tr = Entry_Fields e ∧ putEntries tr = [e]
  end.

(** The invariant of the dispatch. *)
Record Inv (s : State) : Prop := mkInv {
  inv_table : channels (st_logger s) = channels (st_logger s0);
  inv_fpool :
    fieldPool (st_logger s) = rev (putFields (st_trace s)) ++ fieldPool (st_logger s0);
  inv_epool :
    entryPool (st_logger s) = putEntries (st_trace s) ++ entryPool (st_logger s0);
  inv_items :
    Forall (λ c, Forall (eq e) (ch_buf c) ∧ Forall (eq e) (ch_busy c)) (st_chans s);
  inv_count :
    inflight s + consumedCount (st_trace s) = length (sends (st_trace s));
  inv_wg :
    wg_get s (Entry_WG e)
    = (Z.of_nat (added (st_trace s)) - Z.of_nat (consumedCount (st_trace s)))%Z;
  inv_phase : phase (st_pc s) (st_trace s);
  inv_trace : trace_wf (st_trace s)
}.

(** The invariant of a dispatch that finds no channel for the level,
    whatever else the channels and their goroutines are doing. *)
Definition skip_phase (pc : PC) (tr : list Event) : Prop :=
  match pc with
  | AtHandleEntry e' k' => e' = e ∧ k' = k ∧ putFields tr = [] ∧ putEntries tr = []
  | AtReclaim e' fs k' =>
      e' = e ∧ k' = k ∧ putFields tr ++ fs = Entry_Fields e ∧ putEntries tr = []
  | After k' => k' = k ∧ putFields tr = Entry_Fields e ∧ putEntries tr = [e]
  | Done o => o = outcome_of k ∧ putFields tr = Entry_Fields e ∧ putEntries tr = [e]
  | _ => False
  end.

Record Skip (s : State) : Prop := mkSkip {
  skip_table : channels (st_logger s) = channels (st_logger s0);
  skip_fpool :
    fieldPool (st_logger s) = rev (putFields (st_trace s)) ++ fieldPool (st_logger s0);
  skip_epool :
    entryPool (st_logger s) = putEntries (st_trace s) ++ entryPool (st_logger s0);
  skip_quiet : Forall (λ ev, ¬ is_delivery ev) (st_trace s);
  skip_pc : skip_phase (st_pc s) (st_trace s)
}.

(** What the scheduler needs on top of it. *)
Record Live (s : State) : Prop := mkLive {
  live_workers : Forall (λ c, 1 ≤ ch_workers c) (st_chans s);
  live_chans :
    match st_pc s with
    | AtHandleEntry e' _ =>
        Forall (λ ch, ch < length (st_chans s)) (registered (Entry_Level e') s)
    | AtSend _ _ rest _ => Forall (λ ch, ch < length (st_chans s)) rest
    | _ => True
    end
}.

End Invariant.

End Dispatch.

(** ** Sample data *)

Module Samples.

(** The line feed, and the level names of the package. *)
Definition LF : string := String "010"%char EmptyString.

Definition levelNames (l : Level) : string :=
  match l with
  | DebugLevel => "DEBUG" | TraceLevel => "TRACE" | InfoLevel => "INFO"
  | NoticeLevel => "NOTICE" | WarnLevel => "WARN" | ErrorLevel => "ERROR"
  | PanicLevel => "PANIC" | AlertLevel => "ALERT" | FatalLevel => "FATAL"
  end.

(** 2016-04-10 12:40:09 UTC, and what [Format] gives for it with the layout
    of the formatting example. *)
Definition T0 : Time := 1460292009000000000%Z.

Definition timeFormat0 (t : Time) (layout : string) : string :=
  if decide (t = T0 ∧ layout = "2006-01-02T15:04:05Z"%string)
  then "2016-04-10T12:40:09Z" else "".

Definition sprintf_v (v : Any) : string :=
  match v with AOther dyn => dyn | _ => "" end.

Definition noColors (l : Level) : string := "".

Definition getenv0 (name : string) : string := "".

(** A plain console with the timestamp format of the formatting example. *)
Definition plainConsole : Console.Console :=
  Console.SetTimestampFormat "2006-01-02T15:04:05Z"
    (Console.DisplayColor false (Console.New noColors)).

(** The Entry of the formatting example, at instant [t]. *)
Definition startedEntry (t : Time) (wg : WGRef) : Entry :=
  mkEntry InfoLevel "started" [mkField "port" (AInt 8080)] t "" 0 wg.

(** A logger with nothing registered, in a process where nothing has
    happened yet. *)
Definition logger0 : Log.logger :=
  Log.mkLogger [] [] ∅ "2006-01-02T15:04:05.999999999Z07:00".

Definition state0 : Log.State :=
  Log.mkState logger0 ∅ 0 [] (Log.Done Log.Returned) [].

(** The same state, observed from now on. *)
Definition observed (s : Log.State) : Log.State :=
  Log.mkState (Log.st_logger s) (Log.st_wg s) (Log.st_next s) (Log.st_chans s)
    (Log.st_pc s) [].

(** Two handlers: one with a buffered channel (capacity 2) and one
    goroutine, for Info, Error and Fatal; one with an unbuffered channel and
    two goroutines, for Warn, Error and Fatal. *)
Definition state2 : Log.State :=
  observed
    (Log.RegisterHandler (Log.channelHandler 0 2) [WarnLevel; ErrorLevel; FatalLevel]
       (Log.RegisterHandler (Log.channelHandler 2 1) [InfoLevel; ErrorLevel; FatalLevel]
          state0)).

Definition sprint (v : list Any) : string :=
  match v with [AString s] => s | _ => "" end.

Definition sprintf (msg : string) (v : list Any) : string := msg.

(** An Entry with two fields, at Error level (two channels) and at Debug
    level (no channel). *)
Definition errorEntry : Entry :=
  mkEntry ErrorLevel "failed" [mkField "port" (AInt 8080); mkField "ok" (ABool false)]
    T0 "" 0 7.

Definition debugEntry : Entry :=
  mkEntry DebugLevel "probe" [mkField "port" (AInt 8080); mkField "ok" (ABool false)]
    T0 "" 0 7.

(** The dispatch of each of them, about to start. *)
Definition errorDispatch : Log.State :=
  Log.HandleEntry errorEntry Log.KReturn state2.

Definition debugDispatch : Log.State :=
  Log.HandleEntry debugEntry Log.KReturn state2.

End Samples.

(** ** More of the code: the worker's loop, successive fields *)

Module More.

(** The loop of [handleLog] over the entries its channel delivers to this
    goroutine, in the order it receives them:
    [for e = range entries { b = formatter(e); c.writer.Write(b);
       e.Consumed() }].  [None] when the formatter panics on one of them. *)
Fixpoint handleLog_loop (c : Console.Console) (w : Console.Worker)
  (entries : list Entry) : option (list Console.Effect * Console.Worker) :=
  match entries with
  | [] => Some ([], w)
  | e :: entries' =>
      '(effects, w) ← Console.handleLog_body c w e;
      '(effects', w) ← handleLog_loop c w entries';
      Some (effects ++ effects', w)
  end.

(** A goroutine of [handleLog] between two entries, when the formatter is
    the default one: the closure made by [defaultFormatFunc], with [scratch]
    the buffer [b] it keeps from the entry before. *)
Definition defaultWorker (Time_Format : Time → string → string)
  (Level_String : Level → string) (Sprintf_v : Any → string) (Reset : string)
  (c : Console.Console) (scratch : list byte) : Console.Worker :=
  Console.mkWorker
    (Console.mkFormatter scratch
       (Console.fm_body
          (Console.defaultFormatFunc Time_Format Level_String Sprintf_v Reset c))).

(** Successive calls of [F], as in the arguments of
    [WithFields(F(k1, v1), F(k2, v2), ...)], evaluated from left to right. *)
Fixpoint makeFields (kvs : list (string * Any)) (s : Log.State)
  : list Field * Log.State :=
  match kvs with
  | [] => ([], s)
  | (key, value) :: kvs' =>
      let '(f, s) := Log.F key value s in
      let '(fs, s) := makeFields kvs' s in
      (f :: fs, s)
  end.

(** How many of the sends of a trace went to channel [ch], and how many of
    its completion signals came from the goroutines of [ch]. *)
Definition sendsTo (ch : Log.Chan) (tr : list Log.Event) : nat :=
  length (filter (λ x, x = ch) (Dispatch.sends tr)).

Fixpoint consumedBy (ch : Log.Chan) (tr : list Log.Event) : nat :=
  match tr with
  | [] => 0
  | Log.EvConsumed ch' _ :: pre =>
      (if decide (ch' = ch) then 1 else 0) + consumedBy ch pre
  | _ :: pre => consumedBy ch pre
  end.

(** The entries that channel [ch] holds, in its buffer or with its
    goroutines; none when the channel was never made. *)
Definition heldAt (ch : Log.Chan) (s : Log.State) : nat :=
  from_option Dispatch.held 0 (Log.st_chans s !! ch).

(** Successive calls of [RegisterHandler], each with a handler whose [Run]
    makes a channel of the given capacity and starts the given number of
    goroutines, for the given levels. *)
Definition registerAll (hs : list (nat * nat * list Level)) (s : Log.State)
  : Log.State :=
  foldl (λ s h, Log.RegisterHandler (Log.channelHandler h.1.1 h.1.2) h.2 s) s hs.

End More.

Module MoreSamples.

(** A process started with GOPATH=/go. *)
Definition getenvGo (name : string) : string :=
  if decide (name = "GOPATH"%string) then "/go" else "".

(** A plain console in long-file mode, as configured and as [Run] leaves it
    in that process. *)
Definition longConsole : Console.Console :=
  Console.SetFilenameDisplay Console.Llongfile Samples.plainConsole.

Definition startedLongConsole : Console.Console :=
  Console.mkConsole 0 1 Samples.noColors Console.Stderr Console.FFDefault
    "2006-01-02T15:04:05Z" "/go/src/" Console.Llongfile false.

(** A console asked for [n] workers. *)
Definition crowdedConsole (n : Z) : Console.Console :=
  (Console.SetBuffersAndWorkers 0 n Samples.plainConsole).1.

(** A handler that made an unbuffered channel and started no goroutine,
    registered for Info; and an Info call on that logger. *)
Definition unservedState : Log.State :=
  Samples.observed
    (Log.RegisterHandler (Log.channelHandler 0 0) [InfoLevel] Samples.state0).

Definition unservedDispatch : Log.State :=
  Log.HandleEntry (Samples.startedEntry Samples.T0 7) Log.KReturn unservedState.

(** An Entry with a caller position. *)
Definition locatedEntry (file : string) : Entry :=
  mkEntry InfoLevel "started" [] Samples.T0 file 42 0.

End MoreSamples.

(** ** The console handler: formatting *)

Section ConsoleFormatting.

Variable Time_Format : Time → string → string.
Variable Level_String : Level → string.
Variable Sprintf_v : Any → string.
Variable Reset : string.

Lemma list_byte_of_string_app (s1 s2 : string) :
  list_byte_of_string (s1 ++ s2) = list_byte_of_string s1 ++ list_byte_of_string s2.
Proof.
  unfold list_byte_of_string.
  induction s1 as [|a s1 IH]; [done|].
  change (String a s1 ++ s2)%string with (String a (s1 ++ s2)).
  cbn. f_equal. exact IH.
Qed.

Lemma padLoop_replicate (n : nat) (b : list byte) :
  Console.padLoop n b = b ++ replicate n Console.space.
Proof.
  revert b. induction n as [|n IH]; intros b; cbn.
  - by rewrite app_nil_r.
  - by rewrite IH, <- app_assoc.
Qed.

(** The scratch buffer never shows in what a default formatter returns. *)
Lemma plainFormatter_scratch (c : Console.Console) (b : list byte) (e : Entry) :
  Console.plainFormatter Time_Format Level_String Sprintf_v c b e
  = Console.plainFormatter Time_Format Level_String Sprintf_v c [] e.
Proof. unfold Console.plainFormatter. by rewrite take_0. Qed.

Lemma shortLoop_no_slash (file : string) (i : nat) :
  (∀ k, 0 < k ≤ i → String.get k file ≠ Some Console.slash) →
  Console.shortLoop file i = file.
Proof.
  induction i as [|i IH]; intros Hno; [done|].
  cbn [Console.shortLoop]. destruct (decide _) as [Heq|_].
  - exfalso. apply (Hno (S i)); [lia | exact Heq].
  - apply IH. intros k Hk. apply Hno. lia.
Qed.

Lemma shortLoop_last_slash (file : string) (i j : nat) :
  0 < j ≤ i →
  String.get j file = Some Console.slash →
  (∀ k, j < k ≤ i → String.get k file ≠ Some Console.slash) →
  Console.shortLoop file i = Console.sliceFrom (j + 1) file.
Proof.
  induction i as [|i IH]; intros Hj Hget Hno; [lia|].
  cbn [Console.shortLoop]. destruct (decide _) as [Heq|Hne].
  - destruct (decide (j = S i)) as [->|Hji]; [done|].
    exfalso. apply (Hno (S i)); [lia | exact Heq].
  - destruct (decide (j = S i)) as [->|Hji]; [done|].
    apply IH; [lia | done |]. intros k Hk. apply Hno. lia.
Qed.

Lemma get_beyond (file : string) (k : nat) :
  String.length file ≤ k → String.get k file = None.
Proof.
  revert k. induction file as [|a file IH]; intros k Hk; [by destruct k|].
  destruct k as [|k]; cbn in *; [lia|]. apply IH. lia.
Qed.

(** C10. In short-filename mode the displayed file is what follows the last
    '/' that stands at an index greater than 0; a path with no '/' at an
    index greater than 0 (no '/' at all, or only a leading one) is displayed
    unchanged. *)
Theorem C10_short_filename (c : Console.Console) (file : string) :
  Console.fileDisplay c = Console.Lshortfile →
  (∀ j, 0 < j →
        String.get j file = Some Console.slash →
        (∀ k, j < k < String.length file → String.get k file ≠ Some Console.slash) →
        Console.displayFile c file = Some (Console.sliceFrom (j + 1) file))
  ∧ ((∀ k, 0 < k < String.length file → String.get k file ≠ Some Console.slash) →
     Console.displayFile c file = Some file).
Proof.
  intros Hmode. unfold Console.displayFile. rewrite decide_True by done.
  unfold Console.shortFile.
  replace (Z.to_nat (Z.of_nat (String.length file) - 1))
    with (String.length file - 1) by lia.
  split.
  - intros j Hj Hget Hno.
    assert (j < String.length file) as Hlt.
    { destruct (decide (j < String.length file)) as [|Hge]; [done|].
      rewrite get_beyond in Hget by lia. done. }
    f_equal. apply shortLoop_last_slash; [lia | done |].
    intros k Hk. apply Hno. lia.
  - intros Hno. f_equal. apply shortLoop_no_slash. intros k Hk. apply Hno. lia.
Qed.

(** C5, as amended. The plain default formatter, with the timestamp format
    "2006-01-02T15:04:05Z", renders the Entry of the example as the
    formatted timestamp, a space, the level name padded on the left to width
    6 ("  INFO"), a space, "started", " port=8080" and a line feed. *)
Theorem C5_plain_format_left_padded (c : Console.Console) (t : Time) (wg : WGRef) :
  Level_String InfoLevel = "INFO"%string →
  Console.displayColor c = false →
  Console.timestampFormat c = "2006-01-02T15:04:05Z"%string →
  fst <$> Console.format
            (Console.defaultFormatFunc Time_Format Level_String Sprintf_v Reset c)
            (Samples.startedEntry t wg)
  = Some (list_byte_of_string
            (Time_Format t "2006-01-02T15:04:05Z" ++ " " ++ "  INFO" ++ " "
             ++ "started" ++ " port=8080" ++ Samples.LF)).
Proof.
  intros Hname Hplain Hlayout.
  unfold Console.defaultFormatFunc. rewrite Hplain.
  unfold Console.format, Console.plainFormatter, Samples.startedEntry.
  cbn [Console.fm_body Console.fm_scratch Entry_Line Entry_Level
       Entry_Timestamp Entry_Message Entry_Fields Console.plainFields
       Key Value Console.appendValue].
  rewrite decide_True by done. rewrite Hname, Hlayout.
  unfold Console.padLevel. rewrite padLoop_replicate.
  unfold Console.AppendInt, Console.appendString.
  cbn [mbind option_bind fmap option_fmap option_map fst].
  rewrite list_byte_of_string_app, take_0, <- !app_assoc. reflexivity.
Qed.

End ConsoleFormatting.

Lemma C10_short_filename_witness :
  Console.displayFile Samples.plainConsole "/go/src/app/main.go" = Some "main.go"%string
  ∧ Console.displayFile Samples.plainConsole "/main.go" = Some "/main.go"%string
  ∧ Console.displayFile Samples.plainConsole "main.go" = Some "main.go"%string.
Proof.
  split; [|split].
  - refine (proj1 (C10_short_filename Samples.plainConsole "/go/src/app/main.go" eq_refl)
              11 _ eq_refl _); [lia|].
    intros k Hk. cbn in Hk.
    do 12 (destruct k as [|k]; [lia|]).
    do 7 (destruct k as [|k]; [discriminate|]). lia.
  - refine (proj2 (C10_short_filename Samples.plainConsole "/main.go" eq_refl) _).
    intros k Hk. cbn in Hk. destruct k as [|k]; [lia|].
    do 7 (destruct k as [|k]; [discriminate|]). lia.
  - refine (proj2 (C10_short_filename Samples.plainConsole "main.go" eq_refl) _).
    intros k Hk. cbn in Hk. destruct k as [|k]; [lia|].
    do 6 (destruct k as [|k]; [discriminate|]). lia.
Defined.

Lemma C5_plain_format_left_padded_witness :
  fst <$> Console.format
            (Console.defaultFormatFunc Samples.timeFormat0 Samples.levelNames
               Samples.sprintf_v "" Samples.plainConsole)
            (Samples.startedEntry Samples.T0 0)
  = Some (list_byte_of_string
            ("2016-04-10T12:40:09Z" ++ " " ++ "  INFO" ++ " " ++ "started"
             ++ " port=8080" ++ Samples.LF)).
Proof.
  exact (C5_plain_format_left_padded Samples.timeFormat0 Samples.levelNames
           Samples.sprintf_v "" Samples.plainConsole Samples.T0 0
           eq_refl eq_refl eq_refl).
Defined.

(** C5, as the claim has it, fails: the level name is not followed by its
    padding ("INFO  "), it is preceded by it. *)
Lemma C5_right_padding_counterexample :
  fst <$> Console.format
            (Console.defaultFormatFunc Samples.timeFormat0 Samples.levelNames
               Samples.sprintf_v "" Samples.plainConsole)
            (Samples.startedEntry Samples.T0 0)
  ≠ Some (list_byte_of_string
            ("2016-04-10T12:40:09Z" ++ " " ++ "INFO  " ++ " " ++ "started"
             ++ " port=8080" ++ Samples.LF)).
Proof. vm_compute. discriminate. Qed.

(** ** Dispatch: the step relation *)

Module DispatchFacts.
Import Log Dispatch.

Lemma wg_get_wg_add (s : State) (r : WGRef) (d : Z) :
  wg_get (wg_add r d s) r = (wg_get s r + d)%Z.
Proof. unfold wg_get at 1, wg_add. cbn. by rewrite lookup_insert_eq. Qed.

Lemma wg_get_wg_add_ne (s : State) (r r' : WGRef) (d : Z) :
  r ≠ r' → wg_get (wg_add r d s) r' = wg_get s r'.
Proof. intros Hne. unfold wg_get, wg_add. cbn. by rewrite lookup_insert_ne. Qed.

Lemma step_Transition (s s' : State) : step s s' → Transition s s'.
Proof.
  intros [a Ha]. destruct a as [|ch|ch i]; cbn [do_action] in Ha.
  - unfold prod_step in Ha.
    destruct (st_pc s) as [e k|e entry chs k|e k|e fs k|k|o] eqn:Hpc.
    + destruct (channels (st_logger s) !! Entry_Level e) as [chs|] eqn:Hchs;
        inversion Ha; subst.
      * rewrite wg_get_wg_add. by apply T_add.
      * by apply T_skip.
    + destruct chs as [|ch chs].
      * inversion Ha; subst. by eapply T_sent.
      * unfold send in Ha.
        destruct (st_chans s !! ch) as [c|] eqn:Hc; [|done]. cbn in Ha.
        destruct (decide (length (ch_buf c) < ch_cap c)) as [Hroom|Hfull].
        { inversion Ha; subst. by eapply T_send_buffered. }
        destruct (decide (ch_cap c = 0 ∧ length (ch_busy c) < ch_workers c))
          as [[Hcap Hready]|]; [|done].
        inversion Ha; subst. by eapply T_send_direct.
    + destruct (decide (wg_get s (Entry_WG e) = 0%Z)); inversion Ha; subst.
      by apply T_wait.
    + destruct fs as [|f fs]; inversion Ha; subst.
      * by apply T_put_entry.
      * by apply T_put_field.
    + destruct k; inversion Ha; subst.
      * by apply T_return.
      * by apply T_exit.
      * by apply T_panic.
    + done.
  - unfold recv in Ha.
    destruct (st_chans s !! ch) as [c|] eqn:Hc; [|done]. cbn in Ha.
    destruct (ch_buf c) as [|x buf] eqn:Hbuf; [done|].
    destruct (decide (length (ch_busy c) < ch_workers c)); inversion Ha; subst.
    by eapply T_recv.
  - unfold consumed in Ha.
    destruct (st_chans s !! ch) as [c|] eqn:Hc; [|done]. cbn in Ha.
    destruct (ch_busy c !! i) as [x|] eqn:Hx; [|done]. cbn in Ha.
    inversion Ha; subst. by eapply T_consumed.
Qed.

Lemma Transition_step (s s' : State) : Transition s s' → step s s'.
Proof.
  intros Ht. destruct Ht as
    [s e k chs Hpc Hchs|s e k Hpc Hchs|s e entry ch chs k c Hpc Hc Hroom
    |s e entry ch chs k c Hpc Hc Hfull Hcap Hready|s e entry k Hpc
    |s e k Hpc Hwg|s e f fs k Hpc|s e k Hpc|s Hpc|s code Hpc|s v Hpc
    |s ch c x buf Hc Hbuf Hready|s ch c i x Hc Hx].
  1-11: exists Produce; cbn [do_action]; unfold prod_step; rewrite Hpc.
  - by rewrite Hchs, wg_get_wg_add.
  - by rewrite Hchs.
  - unfold send. rewrite Hc. cbn. by rewrite decide_True.
  - unfold send. rewrite Hc. cbn. rewrite decide_False by done.
    by rewrite decide_True.
  - done.
  - by rewrite decide_True.
  - done.
  - done.
  - done.
  - done.
  - done.
  - exists (Recv ch). cbn. unfold recv. rewrite Hc. cbn. rewrite Hbuf.
    by rewrite decide_True.
  - exists (Consume ch i). cbn. unfold consumed. rewrite Hc. cbn. by rewrite Hx.
Qed.


(** *** Bookkeeping on the store of channels *)

Lemma sum_list_with_insert {A} (f : A → nat) (l : list A) (i : nat) (x y : A) :
  l !! i = Some x →
  sum_list_with f (<[i:=y]> l) + f x = sum_list_with f l + f y.
Proof.
  revert i. induction l as [|a l IH]; intros i Hi; [done|].
  destruct i as [|i].
  - inversion Hi; subst. cbn. lia.
  - change (<[S i:=y]> (a :: l)) with (a :: <[i:=y]> l).
    cbn [sum_list_with]. specialize (IH i Hi). lia.
Qed.

Lemma sum_list_with_lookup {A} (f : A → nat) (l : list A) (i : nat) (x : A) :
  l !! i = Some x → f x ≤ sum_list_with f l.
Proof.
  revert i. induction l as [|a l IH]; intros i Hi; [done|].
  destruct i as [|i]; cbn [sum_list_with].
  - inversion Hi; subst. lia.
  - specialize (IH i Hi). lia.
Qed.

Lemma sum_list_with_pos {A} (f : A → nat) (l : list A) :
  0 < sum_list_with f l → ∃ i x, l !! i = Some x ∧ 0 < f x.
Proof.
  induction l as [|a l IH]; cbn [sum_list_with]; [lia|]. intros Hpos.
  destruct (decide (0 < f a)) as [Ha|Ha].
  - exists 0, a. by split.
  - destruct IH as (i & x & Hi & Hx); [lia|]. exists (S i), x. by split.
Qed.

Lemma inflight_set_chan (s : State) (ch : Chan) (c c' : ChanState) :
  st_chans s !! ch = Some c →
  inflight (set_chan ch c' s) + held c = inflight s + held c'.
Proof. intros Hc. unfold inflight. cbn. by apply sum_list_with_insert. Qed.

Lemma wg_get_set_pc (pc : PC) (s : State) (r : WGRef) :
  wg_get (set_pc pc s) r = wg_get s r.
Proof. done. Qed.

Lemma wg_get_log_event (ev : Event) (s : State) (r : WGRef) :
  wg_get (log_event ev s) r = wg_get s r.
Proof. done. Qed.

Lemma wg_get_set_chan (ch : Chan) (c : ChanState) (s : State) (r : WGRef) :
  wg_get (set_chan ch c s) r = wg_get s r.
Proof. done. Qed.

Lemma inflight_set_pc (pc : PC) (s : State) : inflight (set_pc pc s) = inflight s.
Proof. done. Qed.

Lemma inflight_log_event (ev : Event) (s : State) :
  inflight (log_event ev s) = inflight s.
Proof. done. Qed.

Lemma inflight_wg_add (r : WGRef) (d : Z) (s : State) :
  inflight (wg_add r d s) = inflight s.
Proof. done. Qed.

Ltac frame :=
  rewrite ?wg_get_set_pc, ?wg_get_log_event, ?wg_get_set_chan,
    ?inflight_set_pc, ?inflight_log_event, ?inflight_wg_add.

Ltac simpl_state :=
  cbn [st_trace st_pc st_chans st_logger st_wg st_next log_event set_pc
       set_chan wg_add put_field put_entry set_logger fieldPool entryPool
       channels timeFormat] in *.

End DispatchFacts.

(** ** Dispatch: the invariant *)

Module DispatchInvariant.
Import Log Dispatch DispatchFacts.

Lemma putEntries_elem (tr : list Event) (x : Entry) :
  x ∈ putEntries tr → EvPutEntry x ∈ tr.
Proof.
  induction tr as [|ev tr IH]; cbn; [by intros ?%elem_of_nil|].
  destruct ev; try (intros Hx; apply elem_of_cons; right; by apply IH).
  intros [->|Hx]%elem_of_cons; [by left|]. right. by apply IH.
Qed.

Lemma held_lookup (s : State) (ch : Chan) (c : ChanState) :
  st_chans s !! ch = Some c → held c ≤ inflight s.
Proof. apply sum_list_with_lookup. Qed.

Section Preservation.

Variables (e : Entry) (k : Cont) (s0 : State).

Lemma targets_Some (s : State) (chs : list Chan) :
  channels (st_logger s) = channels (st_logger s0) →
  channels (st_logger s) !! Entry_Level e = Some chs →
  targets e s0 = chs.
Proof. intros Htable Hchs. unfold targets, registered. by rewrite <- Htable, Hchs. Qed.

Lemma targets_None (s : State) :
  channels (st_logger s) = channels (st_logger s0) →
  channels (st_logger s) !! Entry_Level e = None →
  targets e s0 = [].
Proof. intros Htable Hchs. unfold targets, registered. by rewrite <- Htable, Hchs. Qed.

(** A goroutine can move only while the producer is delivering. *)
Lemma delivering (s : State) (ch : Chan) (c : ChanState) :
  Inv e k s0 s → st_chans s !! ch = Some c → 0 < held c →
  match st_pc s with AtSend _ _ _ _ | AtWait _ _ => True | _ => False end.
Proof.
  intros [_ _ _ _ Hcount _ Hphase _] Hc Hheld.
  pose proof (held_lookup _ _ _ Hc) as Hle.
  destruct (st_pc s); cbn [phase] in Hphase; try done.
  - destruct Hphase as (_ & _ & Htr). rewrite Htr in Hcount. cbn in Hcount. lia.
  - destruct Hphase as (_ & _ & Hsends & _ & Hcons & _).
    rewrite Hsends, Hcons in Hcount. lia.
  - destruct Hphase as (_ & Hsends & _ & Hcons & _).
    rewrite Hsends, Hcons in Hcount. lia.
  - destruct Hphase as (_ & Hsends & _ & Hcons & _).
    rewrite Hsends, Hcons in Hcount. lia.
Qed.

Lemma Inv_step (s s' : State) : Inv e k s0 s → Transition s s' → Inv e k s0 s'.
Proof.
  intros HI Ht. pose proof HI as [Htable Hfpool Hepool Hitems Hcount Hwg Hphase Htrace].
  destruct Ht as
    [s e1 k1 chs Hpc Hchs|s e1 k1 Hpc Hchs|s e1 entry ch chs k1 c Hpc Hc Hroom
    |s e1 entry ch chs k1 c Hpc Hc Hfull Hcap Hready|s e1 entry k1 Hpc
    |s e1 k1 Hpc Hwg0|s e1 f fs k1 Hpc|s e1 k1 Hpc|s Hpc|s code Hpc|s v Hpc
    |s ch c x buf Hc Hbuf Hready|s ch c i x Hc Hx].
  all: try (rewrite Hpc in Hphase; cbn [phase] in Hphase).
  - (* WG.Add *)
    destruct Hphase as (-> & -> & Htr).
    pose proof (targets_Some _ _ Htable Hchs) as Htg.
    rewrite Htr in *. cbn in Hwg.
    constructor; simpl_state; rewrite ?Htr; try done.
    + frame. rewrite wg_get_wg_add, Hwg. cbn. lia.
    + cbn. rewrite Htg, Hwg. repeat split; try done; try lia. by left.
    + cbn. rewrite Htg, Hwg. done.
  - (* no channel for the level *)
    destruct Hphase as (-> & -> & Htr).
    pose proof (targets_None _ Htable Hchs) as Htg.
    constructor; simpl_state; try done.
    rewrite Htr. cbn. by rewrite Htg.
  - (* send, buffered *)
    destruct Hphase as (-> & -> & -> & Hsends & Hadded & Hpf & Hpe & Hadd).
    pose proof (Forall_lookup_1 _ _ _ _ Hitems Hc) as [Hbuf Hbusy].
    constructor; simpl_state; try done.
    + apply Forall_insert; [done|]. cbn. split; [|done].
      apply Forall_app. split; [done|]. by constructor.
    + pose proof (inflight_set_chan s ch c
        (mkChan (ch_cap c) (ch_buf c ++ [e]) (ch_workers c) (ch_busy c)) Hc) as Hin.
      unfold held in Hin. cbn in Hin. rewrite length_app in Hin. cbn in *.
      rewrite length_app. cbn.
      frame. lia.
    + cbn. rewrite <- app_assoc. repeat split; try done. by right.
  - (* send, unbuffered *)
    destruct Hphase as (-> & -> & -> & Hsends & Hadded & Hpf & Hpe & Hadd).
    pose proof (Forall_lookup_1 _ _ _ _ Hitems Hc) as [Hbuf Hbusy].
    constructor; simpl_state; try done.
    + apply Forall_insert; [done|]. cbn. split; [done|].
      apply Forall_app. split; [done|]. by constructor.
    + pose proof (inflight_set_chan s ch c
        (mkChan (ch_cap c) (ch_buf c) (ch_workers c) (ch_busy c ++ [e])) Hc) as Hin.
      unfold held in Hin. cbn in Hin. rewrite length_app in Hin. cbn in *.
      rewrite length_app. cbn.
      frame. lia.
    + cbn. rewrite <- app_assoc. repeat split; try done. by right.
  - (* all sent *)
    destruct Hphase as (-> & -> & -> & Hsends & Hadded & Hpf & Hpe & Hadd).
    constructor; simpl_state; try done.
    cbn. rewrite app_nil_r in Hsends. done.
  - (* WG.Wait returns *)
    destruct Hphase as (-> & -> & Hsends & Hadded & Hpf & Hpe).
    assert (added (st_trace s) = consumedCount (st_trace s)) as Hac
      by (rewrite Hwg0 in Hwg; lia).
    constructor; simpl_state; try done.
    + cbn. repeat split; try done; try lia. by rewrite Hpf.
    + cbn. repeat split; try done. lia.
  - (* fieldPool.Put *)
    destruct Hphase as (-> & -> & Hsends & Hac & Hcons & Hpf & Hpe).
    constructor; simpl_state; try done.
    + cbn. rewrite rev_app_distr. cbn. by rewrite Hfpool.
    + cbn. rewrite <- app_assoc. done.
  - (* entryPool.Put *)
    destruct Hphase as (-> & -> & Hsends & Hac & Hcons & Hpf & Hpe).
    rewrite app_nil_r in Hpf.
    constructor; simpl_state; try done.
    all: cbn; rewrite ?Hepool, ?Hpe; done.
  - (* return *)
    destruct Hphase as (<- & Hsends & Hac & Hcons & Hpf & Hpe).
    constructor; simpl_state; try done.
  - (* exitFunc *)
    destruct Hphase as (<- & Hsends & Hac & Hcons & Hpf & Hpe).
    constructor; simpl_state; try done.
    all: cbn; repeat split; try done; apply putEntries_elem; rewrite Hpe; by left.
  - (* panic *)
    destruct Hphase as (<- & Hsends & Hac & Hcons & Hpf & Hpe).
    constructor; simpl_state; try done.
    all: cbn; repeat split; try done; apply putEntries_elem; rewrite Hpe; by left.
  - (* a goroutine receives *)
    pose proof (Forall_lookup_1 _ _ _ _ Hitems Hc) as [Hbuf' Hbusy].
    rewrite Hbuf in Hbuf'. apply Forall_cons in Hbuf' as [<- Hbuf'].
    pose proof (delivering s ch c HI Hc) as Hdel.
    unfold held in Hdel. rewrite Hbuf in Hdel. cbn in Hdel.
    specialize (Hdel ltac:(lia)).
    constructor; simpl_state; try done.
    + apply Forall_insert; [done|]. cbn. split; [done|].
      apply Forall_app. split; [done|]. by constructor.
    + pose proof (inflight_set_chan s ch c
        (mkChan (ch_cap c) buf (ch_workers c) (ch_busy c ++ [e])) Hc) as Hin.
      unfold held in Hin. cbn in Hin. rewrite length_app, Hbuf in Hin. cbn in *.
      frame. lia.
    + destruct (st_pc s); try done; cbn [phase] in *.
      destruct Hphase as (? & ? & ? & ? & ? & ? & ? & ?).
      repeat split; try done. by right.
  - (* a goroutine signals completion *)
    pose proof (Forall_lookup_1 _ _ _ _ Hitems Hc) as [Hbuf Hbusy].
    pose proof (Forall_lookup_1 _ _ _ _ Hbusy Hx) as <-.
    pose proof (lookup_lt_Some _ _ _ Hx) as Hlen.
    pose proof (delivering s ch c HI Hc) as Hdel.
    unfold held in Hdel. specialize (Hdel ltac:(lia)).
    pose proof (inflight_set_chan s ch c
        (mkChan (ch_cap c) (ch_buf c) (ch_workers c) (delete i (ch_busy c))) Hc) as Hin.
    unfold held in Hin. cbn in Hin. rewrite length_delete in Hin by done.
    constructor; simpl_state; try done.
    + apply Forall_insert; [done|]. cbn. split; [done|].
      by apply Forall_delete.
    + cbn. frame. lia.
    + frame. rewrite wg_get_wg_add. frame. rewrite Hwg. cbn. lia.
    + destruct (st_pc s); try done; cbn [phase] in *.
      destruct Hphase as (? & ? & ? & ? & ? & ? & ? & ?).
      repeat split; try done. by right.
    + cbn. repeat split; try done. lia.
Qed.

End Preservation.

End DispatchInvariant.

(** ** Dispatch: from the first state to every reachable state *)

Module DispatchReach.
Import Log Dispatch DispatchFacts DispatchInvariant.

Lemma idle_inflight (s : State) : idle s → inflight s = 0.
Proof.
  intros (Hchans & _ & _). unfold inflight.
  revert Hchans. generalize (st_chans s). intros l Hl.
  induction Hl as [|c l [Hbuf Hbusy] _ IH]; [done|].
  cbn [sum_list_with]. unfold held at 1. by rewrite Hbuf, Hbusy, IH.
Qed.

Lemma idle_wg (s : State) (r : WGRef) : idle s → wg_get s r = 0%Z.
Proof.
  intros (_ & Hwg & _). unfold wg_get.
  destruct (st_wg s !! r) as [n|] eqn:Hr; [|done].
  exact (Hwg r n Hr).
Qed.

Section Reach.

Variables (e : Entry) (k : Cont) (s0 : State).
Hypothesis Hstart : st_pc s0 = AtHandleEntry e k.

Lemma Inv_init : idle s0 → Inv e k s0 s0.
Proof.
  intros Hidle. pose proof Hidle as (Hchans & _ & Htr).
  constructor; rewrite ?Htr, ?Hstart; cbn; try done.
  - eapply Forall_impl; [exact Hchans|]. intros c [-> ->]. by split.
  - by rewrite idle_inflight.
  - by rewrite idle_wg.
Qed.

Lemma Inv_reachable (s : State) : idle s0 → reachable s0 s → Inv e k s0 s.
Proof.
  intros Hidle Hreach.
  refine (rtc_ind_r (Inv e k s0) s0 _ _ s Hreach).
  - by apply Inv_init.
  - intros s1 s2 _ Hstep IH. eapply Inv_step; [exact IH|]. by apply step_Transition.
Qed.

Lemma trace_wf_split (tr post pre : list Event) (ev : Event) :
  trace_wf e k s0 tr → tr = post ++ ev :: pre → ev_ok e k s0 ev pre.
Proof.
  revert tr. induction post as [|ev' post IH]; intros tr Hwf ->; cbn in Hwf.
  - by destruct Hwf.
  - destruct Hwf as [_ Hwf]. by eapply IH.
Qed.

(** Once the producer reclaims, no copy of the Entry is left in a buffer or
    with a goroutine. *)
Lemma Inv_reclaiming (s : State) :
  Inv e k s0 s →
  match st_pc s with AtReclaim _ _ _ | After _ | Done _ => True | _ => False end →
  inflight s = 0.
Proof.
  intros [_ _ _ _ Hcount _ Hphase _] Hpc.
  destruct (st_pc s); try done; cbn [phase] in Hphase.
  - destruct Hphase as (_ & _ & Hsends & _ & Hcons & _).
    rewrite Hsends, Hcons in Hcount. lia.
  - destruct Hphase as (_ & Hsends & _ & Hcons & _).
    rewrite Hsends, Hcons in Hcount. lia.
  - destruct Hphase as (_ & Hsends & _ & Hcons & _).
    rewrite Hsends, Hcons in Hcount. lia.
Qed.

(** The sends so far are an initial segment of the routing list. *)
Lemma Inv_sends_prefix (s : State) :
  Inv e k s0 s → ∃ rest, sends (st_trace s) ++ rest = targets e s0.
Proof.
  intros [_ _ _ _ _ _ Hphase _].
  destruct (st_pc s); cbn [phase] in Hphase.
  - destruct Hphase as (_ & _ & ->). by exists (targets e s0).
  - destruct Hphase as (_ & _ & _ & Hsends & _). by eexists.
  - destruct Hphase as (_ & _ & Hsends & _). exists []. by rewrite app_nil_r.
  - destruct Hphase as (_ & _ & Hsends & _). exists []. by rewrite app_nil_r.
  - destruct Hphase as (_ & Hsends & _). exists []. by rewrite app_nil_r.
  - destruct Hphase as (_ & Hsends & _). exists []. by rewrite app_nil_r.
Qed.

(** What holds once [HandleEntry] has returned. *)
Lemma Inv_returned (s : State) :
  Inv e k s0 s → returned (st_pc s) →
  sends (st_trace s) = targets e s0
  ∧ consumedCount (st_trace s) = length (targets e s0)
  ∧ putFields (st_trace s) = Entry_Fields e
  ∧ fieldPool (st_logger s) = rev (Entry_Fields e) ++ fieldPool (st_logger s0)
  ∧ entryPool (st_logger s) = e :: entryPool (st_logger s0).
Proof.
  intros [_ Hfpool Hepool _ _ _ Hphase _] Hret.
  destruct (st_pc s); try done; cbn [phase] in Hphase.
  - destruct Hphase as (_ & Hsends & _ & Hcons & Hpf & Hpe).
    rewrite Hpf in Hfpool. rewrite Hpe in Hepool. done.
  - destruct Hphase as (_ & Hsends & _ & Hcons & Hpf & Hpe).
    rewrite Hpf in Hfpool. rewrite Hpe in Hepool. done.
Qed.

(** The counter never goes below zero, and is back at zero when
    [HandleEntry] returns. *)
Lemma Inv_counter (s : State) :
  Inv e k s0 s →
  (0 ≤ wg_get s (Entry_WG e))%Z
  ∧ (returned (st_pc s) → wg_get s (Entry_WG e) = 0%Z).
Proof.
  intros [_ _ _ _ Hcount Hwg Hphase _]. rewrite Hwg.
  destruct (st_pc s); cbn [phase returned] in *.
  - destruct Hphase as (_ & _ & ->). cbn. split; [lia|done].
  - destruct Hphase as (_ & _ & _ & Hsends & Hadded & _).
    apply (f_equal length) in Hsends. rewrite length_app in Hsends.
    split; [lia|done].
  - destruct Hphase as (_ & _ & Hsends & Hadded & _).
    apply (f_equal length) in Hsends. split; [lia|done].
  - destruct Hphase as (_ & _ & _ & Hac & _). split; [lia|done].
  - destruct Hphase as (_ & _ & Hac & _). split; intros; lia.
  - destruct Hphase as (_ & _ & Hac & _). split; intros; lia.
Qed.

(** The outcome is that of the continuation. *)
Lemma Inv_outcome (s : State) (o : Outcome) :
  Inv e k s0 s → st_pc s = Done o → o = outcome_of k.
Proof.
  intros [_ _ _ _ _ _ Hphase _] Hpc. rewrite Hpc in Hphase.
  by destruct Hphase as (-> & _).
Qed.

End Reach.

End DispatchReach.

(** ** Dispatch: the scheduler brings every call to its end *)

Module DispatchLive.
Import Log Dispatch DispatchFacts DispatchInvariant DispatchReach.

Lemma first_enabled_step (acts : list Action) (s s' : State) :
  first_enabled acts s = Some s' → step s s'.
Proof.
  induction acts as [|a acts IH]; cbn; [done|].
  destruct (do_action a s) as [s1|] eqn:Ha; [|exact IH].
  intros [= <-]. by exists a.
Qed.

Lemma first_enabled_Some (acts : list Action) (a : Action) (s : State) :
  a ∈ acts → is_Some (do_action a s) → is_Some (first_enabled acts s).
Proof.
  induction acts as [|a' acts IH]; [by intros ?%elem_of_nil|].
  intros Hin Ha. cbn. destruct (do_action a' s) as [s1|] eqn:Ha'; [done|].
  apply elem_of_cons in Hin as [->|Hin]; [|by apply IH].
  rewrite Ha' in Ha. by destruct Ha.
Qed.

Lemma sched_step_step (s s' : State) : sched_step s = Some s' → step s s'.
Proof. apply first_enabled_step. Qed.

Lemma run_reachable (n : nat) (s : State) : reachable s (run n s).
Proof.
  revert s. induction n as [|n IH]; intros s; cbn [run]; [apply rtc_refl|].
  destruct (sched_step s) as [s'|] eqn:Hs; [|apply rtc_refl].
  eapply rtc_l; [by apply sched_step_step | apply IH].
Qed.

Lemma prod_run_reachable (n : nat) (s : State) : reachable s (prod_run n s).
Proof.
  revert s. induction n as [|n IH]; intros s; cbn [prod_run]; [apply rtc_refl|].
  destruct (prod_step s) as [s'|] eqn:Hs; [|apply rtc_refl].
  eapply rtc_l; [by exists Produce | apply IH].
Qed.

Lemma candidate_Consume (s : State) (ch : Chan) :
  ch < length (st_chans s) → Consume ch 0 ∈ candidates s.
Proof.
  intros Hch. unfold candidates. apply elem_of_cons. right.
  apply list_elem_of_In, in_flat_map. exists ch. split.
  - apply in_seq. lia.
  - by left.
Qed.

Lemma candidate_Recv (s : State) (ch : Chan) :
  ch < length (st_chans s) → Recv ch ∈ candidates s.
Proof.
  intros Hch. unfold candidates. apply elem_of_cons. right.
  apply list_elem_of_In, in_flat_map. exists ch. split.
  - apply in_seq. lia.
  - right. by left.
Qed.

(** A channel that holds an entry and has a goroutine lets a goroutine
    move. *)
Lemma goroutine_enabled (s : State) (ch : Chan) (c : ChanState) :
  st_chans s !! ch = Some c → 0 < held c → 1 ≤ ch_workers c →
  is_Some (first_enabled (candidates s) s).
Proof.
  intros Hc Hheld Hw. pose proof (lookup_lt_Some _ _ _ Hc) as Hlt.
  destruct (ch_busy c) as [|x busy] eqn:Hbusy.
  - apply (first_enabled_Some _ (Recv ch)); [by apply candidate_Recv|].
    cbn. unfold recv. rewrite Hc. cbn.
    unfold held in Hheld. rewrite Hbusy in Hheld. cbn in Hheld.
    destruct (ch_buf c) as [|y buf]; [cbn in Hheld; lia|].
    rewrite Hbusy. cbn. rewrite decide_True by lia. done.
  - apply (first_enabled_Some _ (Consume ch 0)); [by apply candidate_Consume|].
    cbn. unfold consumed. rewrite Hc. cbn. rewrite Hbusy. done.
Qed.

Lemma weight_set_chan (s : State) (ch : Chan) (c c' : ChanState) :
  st_chans s !! ch = Some c →
  sum_list_with chan_weight (st_chans (set_chan ch c' s)) + chan_weight c
  = sum_list_with chan_weight (st_chans s) + chan_weight c'.
Proof. intros Hc. cbn [set_chan st_chans]. by apply sum_list_with_insert. Qed.

Lemma weight_step (s s' : State) : Transition s s' → weight s' < weight s.
Proof.
  intros Ht. destruct Ht as
    [s e1 k1 chs Hpc Hchs|s e1 k1 Hpc Hchs|s e1 entry ch chs k1 c Hpc Hc Hroom
    |s e1 entry ch chs k1 c Hpc Hc Hfull Hcap Hready|s e1 entry k1 Hpc
    |s e1 k1 Hpc Hwg0|s e1 f fs k1 Hpc|s e1 k1 Hpc|s Hpc|s code Hpc|s v Hpc
    |s ch c x buf Hc Hbuf Hready|s ch c i x Hc Hx].
  3: pose proof (weight_set_chan s ch c
       (mkChan (ch_cap c) (ch_buf c ++ [entry]) (ch_workers c) (ch_busy c)) Hc) as Hs.
  4: pose proof (weight_set_chan s ch c
       (mkChan (ch_cap c) (ch_buf c) (ch_workers c) (ch_busy c ++ [entry])) Hc) as Hs.
  12: pose proof (weight_set_chan s ch c
       (mkChan (ch_cap c) buf (ch_workers c) (ch_busy c ++ [x])) Hc) as Hs.
  13: pose proof (weight_set_chan s ch c
       (mkChan (ch_cap c) (ch_buf c) (ch_workers c) (delete i (ch_busy c))) Hc) as Hs.
  13: pose proof (lookup_lt_Some _ _ _ Hx) as Hlen.
  all: try (unfold chan_weight in Hs at 2 4; cbn [ch_buf ch_busy] in Hs;
            rewrite ?length_app, ?Hbuf, ?length_delete in Hs by done;
            cbn [length] in Hs).
  all: unfold weight, pc_weight, registered; simpl_state; rewrite ?Hpc, ?Hchs;
    cbn [default from_option id length].
  all: lia.
Qed.

Lemma Live_step (s s' : State) : Live s → Transition s s' → Live s'.
Proof.
  intros [Hw Hchans] Ht. destruct Ht as
    [s e1 k1 chs Hpc Hchs|s e1 k1 Hpc Hchs|s e1 entry ch chs k1 c Hpc Hc Hroom
    |s e1 entry ch chs k1 c Hpc Hc Hfull Hcap Hready|s e1 entry k1 Hpc
    |s e1 k1 Hpc Hwg0|s e1 f fs k1 Hpc|s e1 k1 Hpc|s Hpc|s code Hpc|s v Hpc
    |s ch c x buf Hc Hbuf Hready|s ch c i x Hc Hx].
  all: try rewrite Hpc in Hchans.
  all: constructor; simpl_state; try done.
  - unfold registered in Hchans. by rewrite Hchs in Hchans.
  - apply Forall_insert; [done|]. cbn. exact (Forall_lookup_1 _ _ _ _ Hw Hc).
  - rewrite length_insert. by apply Forall_cons in Hchans as [_ ?].
  - apply Forall_insert; [done|]. cbn. exact (Forall_lookup_1 _ _ _ _ Hw Hc).
  - rewrite length_insert. by apply Forall_cons in Hchans as [_ ?].
  - apply Forall_insert; [done|]. cbn. exact (Forall_lookup_1 _ _ _ _ Hw Hc).
  - rewrite length_insert. destruct (st_pc s); try done.
  - apply Forall_insert; [done|]. cbn. exact (Forall_lookup_1 _ _ _ _ Hw Hc).
  - rewrite length_insert. destruct (st_pc s); try done.
Qed.

Section Progress.

Variables (e : Entry) (k : Cont) (s0 : State).

Lemma progress (s : State) :
  Inv e k s0 s → Live s → (∀ o, st_pc s ≠ Done o) → is_Some (sched_step s).
Proof.
  intros HI [Hw Hchans] Hrun. unfold sched_step.
  assert (is_Some (prod_step s) → is_Some (first_enabled (candidates s) s)) as Hprod.
  { intros Hp. apply (first_enabled_Some _ Produce); [by left | done]. }
  destruct (st_pc s) as [e1 k1|e1 entry chs k1|e1 k1|e1 fs k1|k1|o] eqn:Hpc.
  - apply Hprod. unfold prod_step. rewrite Hpc.
    by destruct (channels (st_logger s) !! Entry_Level e1).
  - destruct chs as [|ch chs].
    { apply Hprod. unfold prod_step. by rewrite Hpc. }
    apply Forall_cons in Hchans as [Hch _].
    destruct (st_chans s !! ch) as [c|] eqn:Hc;
      [|apply lookup_ge_None in Hc; lia].
    pose proof (Forall_lookup_1 _ _ _ _ Hw Hc) as Hwc. cbn in Hwc.
    destruct (decide (length (ch_buf c) < ch_cap c)) as [Hroom|Hfull].
    { apply Hprod. unfold prod_step. rewrite Hpc. cbv beta iota. unfold send. rewrite Hc. cbn.
      by rewrite decide_True. }
    destruct (decide (ch_cap c = 0 ∧ length (ch_busy c) < ch_workers c)) as [Hsync|Hno].
    { apply Hprod. unfold prod_step. rewrite Hpc. cbv beta iota. unfold send. rewrite Hc. cbn.
      rewrite decide_False by done. by rewrite decide_True. }
    apply (goroutine_enabled s ch c Hc); [|done].
    unfold held. destruct (decide (ch_cap c = 0)) as [Hcap|Hcap]; [|lia].
    assert (¬ length (ch_busy c) < ch_workers c) by tauto. lia.
  - destruct (decide (wg_get s (Entry_WG e1) = 0%Z)) as [Hz|Hnz].
    { apply Hprod. unfold prod_step. rewrite Hpc. by rewrite decide_True. }
    pose proof HI as [_ _ _ _ Hcount Hwg Hphase _].
    rewrite Hpc in Hphase. cbn [phase] in Hphase.
    destruct Hphase as (-> & -> & Hsends & Hadded & _).
    assert (0 < inflight s) as Hpos.
    { rewrite Hsends in Hcount. rewrite Hwg in Hnz. lia. }
    apply sum_list_with_pos in Hpos as (ch & c & Hc & Hheld).
    apply (goroutine_enabled s ch c Hc Hheld).
    exact (Forall_lookup_1 _ _ _ _ Hw Hc).
  - apply Hprod. unfold prod_step. rewrite Hpc. by destruct fs.
  - apply Hprod. unfold prod_step. rewrite Hpc. by destruct k1.
  - by destruct (Hrun o).
Qed.

Lemma run_ends (n : nat) (s : State) :
  Inv e k s0 s → Live s → weight s ≤ n → st_pc (run n s) = Done (outcome_of k).
Proof.
  revert s. induction n as [|n IH]; intros s HI HL Hn.
  - cbn [run]. destruct (st_pc s) as [| | | | |o] eqn:Hpc;
      try (unfold weight, pc_weight in Hn; rewrite Hpc in Hn; lia).
    f_equal. by eapply Inv_outcome.
  - cbn [run]. destruct (sched_step s) as [s'|] eqn:Hs.
    + apply sched_step_step, step_Transition in Hs.
      apply IH; [by eapply Inv_step | by eapply Live_step|].
      apply weight_step in Hs. lia.
    + destruct (st_pc s) as [| | | | |o] eqn:Hpc.
      6: { f_equal. by eapply Inv_outcome. }
      all: exfalso; assert (is_Some (sched_step s)) as [? Hsome]
        by (apply progress; [done|done|]; intros o Ho; congruence);
        congruence.
Qed.

End Progress.

Lemma Live_reachable (s0 s : State) : Live s0 → reachable s0 s → Live s.
Proof.
  intros HL Hreach. refine (rtc_ind_r Live s0 _ _ s Hreach); [done|].
  intros s1 s2 _ Hstep IH. eapply Live_step; [exact IH|]. by apply step_Transition.
Qed.

(** However the steps are scheduled, there are at most [weight] of them. *)
Lemma steps_bounded (n : nat) (s s' : State) :
  nsteps step n s s' → weight s' + n ≤ weight s.
Proof.
  induction 1 as [s|n s1 s2 s3 Hstep _ IH]; [lia|].
  apply step_Transition, weight_step in Hstep. lia.
Qed.

Lemma served_Live (e : Entry) (k : Cont) (s0 : State) :
  st_pc s0 = AtHandleEntry e k → served (Entry_Level e) s0 → Live s0.
Proof. intros Hpc [Hw Hchans]. constructor; [done|]. by rewrite Hpc. Qed.

(** Until the call has ended, the producer or a goroutine can move. *)
Lemma no_deadlock (e : Entry) (k : Cont) (s0 s : State) :
  st_pc s0 = AtHandleEntry e k → idle s0 → served (Entry_Level e) s0 →
  reachable s0 s → (∀ o, st_pc s ≠ Done o) → ∃ s', step s s'.
Proof.
  intros Hpc Hidle Hserved Hreach Hrun.
  destruct (progress e k s0 s) as [s' Hs'].
  - by apply Inv_reachable.
  - eapply Live_reachable; [by eapply served_Live | done].
  - done.
  - exists s'. by apply sched_step_step.
Qed.

(** The whole of a dispatch that starts from an idle, served state. *)
Lemma dispatch_ends (e : Entry) (k : Cont) (s0 : State) :
  st_pc s0 = AtHandleEntry e k → idle s0 → served (Entry_Level e) s0 →
  st_pc (run (weight s0) s0) = Done (outcome_of k).
Proof.
  intros Hpc Hidle [Hw Hchans].
  apply (run_ends e k s0); [by apply Inv_init | | done].
  constructor; [done|]. by rewrite Hpc.
Qed.

End DispatchLive.

(** ** Dispatch with no channel for the level, and calls that only return *)

Module DispatchSkip.
Import Log Dispatch DispatchFacts DispatchInvariant DispatchReach DispatchLive.

Section Skipping.

Variables (e : Entry) (k : Cont) (s0 : State).
Hypothesis Hstart : st_pc s0 = AtHandleEntry e k.
Hypothesis Hroute : channels (st_logger s0) !! Entry_Level e = None.

Lemma Skip_init : st_trace s0 = [] → Skip e k s0 s0.
Proof. intros Htr. constructor; rewrite ?Htr, ?Hstart; cbn; done. Qed.

Lemma Skip_step (s s' : State) : Skip e k s0 s → Transition s s' → Skip e k s0 s'.
Proof.
  intros [Htable Hfpool Hepool Hquiet Hphase] Ht.
  destruct Ht as
    [s e1 k1 chs Hpc Hchs|s e1 k1 Hpc Hchs|s e1 entry ch chs k1 c Hpc Hc Hroom
    |s e1 entry ch chs k1 c Hpc Hc Hfull Hcap Hready|s e1 entry k1 Hpc
    |s e1 k1 Hpc Hwg0|s e1 f fs k1 Hpc|s e1 k1 Hpc|s Hpc|s code Hpc|s v Hpc
    |s ch c x buf Hc Hbuf Hready|s ch c i x Hc Hx].
  all: try (rewrite Hpc in Hphase; cbn [skip_phase] in Hphase; try done).
  - destruct Hphase as (-> & _). rewrite Htable, Hroute in Hchs. done.
  - destruct Hphase as (-> & -> & Hpf & Hpe).
    constructor; simpl_state; try done. cbn. by rewrite Hpf.
  - destruct Hphase as (-> & -> & Hpf & Hpe).
    constructor; simpl_state; try done.
    all: try (constructor; [by intros []|done]).
    all: cbn; rewrite ?rev_app_distr, <- ?app_assoc; cbn; by rewrite ?Hfpool.
  - destruct Hphase as (-> & -> & Hpf & Hpe). rewrite app_nil_r in Hpf.
    constructor; simpl_state; try done.
    all: try (constructor; [by intros []|done]).
    all: cbn; by rewrite ?Hepool, ?Hpe.
  - destruct Hphase as (<- & Hpf & Hpe). constructor; simpl_state; done.
  - destruct Hphase as (<- & Hpf & Hpe). constructor; simpl_state; try done.
    all: constructor; [by intros []|done].
  - destruct Hphase as (<- & Hpf & Hpe). constructor; simpl_state; try done.
    all: constructor; [by intros []|done].
  - constructor; simpl_state; try done.
    all: try (constructor; [by intros []|done]).
    all: by destruct (st_pc s).
  - constructor; simpl_state; try done.
    all: try (constructor; [by intros []|done]).
    all: by destruct (st_pc s).
Qed.

Lemma Skip_reachable (s : State) :
  st_trace s0 = [] → reachable s0 s → Skip e k s0 s.
Proof.
  intros Htr Hreach.
  refine (rtc_ind_r (Skip e k s0) s0 _ _ s Hreach).
  - by apply Skip_init.
  - intros s1 s2 _ Hstep IH. eapply Skip_step; [exact IH|]. by apply step_Transition.
Qed.

(** The producer is never held up. *)
Lemma Skip_enabled (s : State) :
  Skip e k s0 s → (∀ o, st_pc s ≠ Done o) → is_Some (prod_step s).
Proof.
  intros [Htable _ _ _ Hphase] Hrun. unfold prod_step.
  destruct (st_pc s) as [e1 k1|e1 entry chs k1|e1 k1|e1 fs k1|k1|o] eqn:Hpc;
    cbn [skip_phase] in Hphase; try done.
  - by destruct (channels (st_logger s) !! Entry_Level e1).
  - by destruct fs.
  - by destruct k1.
  - by destruct (Hrun o).
Qed.

Lemma Skip_returned (s : State) :
  Skip e k s0 s → returned (st_pc s) →
  putFields (st_trace s) = Entry_Fields e
  ∧ putEntries (st_trace s) = [e]
  ∧ fieldPool (st_logger s) = rev (Entry_Fields e) ++ fieldPool (st_logger s0)
  ∧ entryPool (st_logger s) = e :: entryPool (st_logger s0).
Proof.
  intros [_ Hfpool Hepool _ Hphase] Hret.
  destruct (st_pc s); try done; cbn [skip_phase] in Hphase;
    destruct Hphase as (_ & Hpf & Hpe);
    rewrite Hpf in Hfpool; rewrite Hpe in Hepool; done.
Qed.

End Skipping.

(** The reclamation loop, run by the producer alone. *)
Lemma prod_run_reclaim (e : Entry) (fs : list Field) (k : Cont) (s : State) :
  st_pc s = AtReclaim e fs k → st_pc (prod_run (length fs + 1) s) = After k.
Proof.
  revert s. induction fs as [|f fs IH]; intros s Hpc.
  - cbn. unfold prod_step. by rewrite Hpc.
  - cbn [length Nat.add prod_run]. unfold prod_step at 1. rewrite Hpc.
    by apply IH.
Qed.

Lemma prod_run_skip (e : Entry) (k : Cont) (s : State) :
  st_pc s = AtHandleEntry e k →
  channels (st_logger s) !! Entry_Level e = None →
  st_pc (prod_run (length (Entry_Fields e) + 2) s) = After k.
Proof.
  intros Hpc Hroute.
  replace (length (Entry_Fields e) + 2) with (S (length (Entry_Fields e) + 1)) by lia.
  cbn [prod_run]. unfold prod_step at 1. rewrite Hpc, Hroute.
  by apply (prod_run_reclaim e).
Qed.

(** A call whose continuation is to return never exits or panics. *)
Lemma calm_step (s s' : State) : calm s → Transition s s' → calm s'.
Proof.
  intros [Htr Hpcs] Ht.
  destruct Ht as
    [s e1 k1 chs Hpc Hchs|s e1 k1 Hpc Hchs|s e1 entry ch chs k1 c Hpc Hc Hroom
    |s e1 entry ch chs k1 c Hpc Hc Hfull Hcap Hready|s e1 entry k1 Hpc
    |s e1 k1 Hpc Hwg0|s e1 f fs k1 Hpc|s e1 k1 Hpc|s Hpc|s code Hpc|s v Hpc
    |s ch c x buf Hc Hbuf Hready|s ch c i x Hc Hx].
  all: try (rewrite Hpc in Hpcs; cbn in Hpcs; destruct Hpcs as [[= ->]|[=]]).
  all: split; simpl_state; try (constructor; [by intros []|done]); try done.
  all: try by left.
  by right.
Qed.

Lemma calm_reachable (s0 s : State) : calm s0 → reachable s0 s → calm s.
Proof.
  intros Hcalm Hreach.
  refine (rtc_ind_r calm s0 _ _ s Hreach); [done|].
  intros s1 s2 _ Hstep IH. eapply calm_step; [exact IH|]. by apply step_Transition.
Qed.

End DispatchSkip.

(** ** The facade *)

Module FacadeFacts.
Import Log Dispatch DispatchFacts DispatchInvariant DispatchReach DispatchLive
  DispatchSkip.

(** Modelled [newEntry]: what it sets, and what it leaves alone. *)
Lemma newEntry_entry (level : Level) (message : string) (fields : list Field)
  (now : Time) (s : State) :
  let e := (newEntry level message fields now s).1 in
  Entry_Level e = level ∧ Entry_Message e = message ∧ Entry_Fields e = fields
  ∧ Entry_Timestamp e = now.
Proof. unfold newEntry. by destruct (entryPool (st_logger s)). Qed.

Lemma newEntry_state (level : Level) (message : string) (fields : list Field)
  (now : Time) (s : State) :
  let s' := (newEntry level message fields now s).2 in
  st_trace s' = st_trace s ∧ st_chans s' = st_chans s ∧ st_wg s' = st_wg s
  ∧ st_pc s' = st_pc s
  ∧ channels (st_logger s') = channels (st_logger s)
  ∧ fieldPool (st_logger s') = fieldPool (st_logger s)
  ∧ entryPool (st_logger s') = tail (entryPool (st_logger s)).
Proof.
  unfold newEntry. cbv zeta.
  destruct (entryPool (st_logger s)) as [|e pool] eqn:Hpool; cbn; by rewrite ?Hpool.
Qed.

Section Facade.

Variables (level : Level) (message : string) (k : Cont) (now : Time) (s0 : State).

Lemma called_pc :
  st_pc (called level message k now s0)
  = AtHandleEntry (made level message now s0) k.
Proof. unfold called, made, logAt. by destruct (newEntry _ _ _ _ _). Qed.

Lemma made_entry :
  Entry_Level (made level message now s0) = level
  ∧ Entry_Message (made level message now s0) = message
  ∧ Entry_Fields (made level message now s0) = [].
Proof.
  destruct (newEntry_entry level message [] now s0) as (? & ? & ? & _). done.
Qed.

Lemma called_state :
  st_trace (called level message k now s0) = st_trace s0
  ∧ st_chans (called level message k now s0) = st_chans s0
  ∧ st_wg (called level message k now s0) = st_wg s0
  ∧ channels (st_logger (called level message k now s0)) = channels (st_logger s0).
Proof.
  destruct (newEntry_state level message [] now s0) as (? & ? & ? & _ & ? & _).
  unfold called, logAt. destruct (newEntry _ _ _ _ _) as [e s']. cbn in *. done.
Qed.

Lemma called_registered :
  targets (made level message now s0) (called level message k now s0)
  = registered level s0.
Proof.
  destruct made_entry as (Hl & _). destruct called_state as (_ & _ & _ & Ht).
  unfold targets, registered. by rewrite Hl, Ht.
Qed.

Lemma called_idle : idle s0 → idle (called level message k now s0).
Proof.
  destruct called_state as (Htr & Hch & Hwg & _).
  intros (? & ? & ?). unfold idle. by rewrite Htr, Hch, Hwg.
Qed.

Lemma called_served :
  served level s0 →
  served (Entry_Level (made level message now s0)) (called level message k now s0).
Proof.
  destruct made_entry as (Hl & _). destruct called_state as (_ & Hch & _ & Ht).
  intros [? ?]. unfold served. by rewrite Hl, Hch, Ht.
Qed.

(** The call ends, with the outcome of its continuation. *)
Lemma called_ends :
  idle s0 → served level s0 →
  st_pc (run (weight (called level message k now s0))
           (called level message k now s0))
  = Done (outcome_of k).
Proof.
  intros Hidle Hserved. apply (dispatch_ends (made level message now s0) k).
  - apply called_pc.
  - by apply called_idle.
  - by apply called_served.
Qed.

Lemma called_no_deadlock (s : State) :
  idle s0 → served level s0 → reachable (called level message k now s0) s →
  (∀ o, st_pc s ≠ Done o) → ∃ s', step s s'.
Proof.
  intros Hidle Hserved. apply (no_deadlock (made level message now s0) k).
  - apply called_pc.
  - by apply called_idle.
  - by apply called_served.
Qed.

Lemma called_Inv (s : State) :
  idle s0 → reachable (called level message k now s0) s →
  Inv (made level message now s0) k (called level message k now s0) s.
Proof.
  intros Hidle Hreach. apply Inv_reachable; [apply called_pc| |done].
  by apply called_idle.
Qed.

End Facade.

End FacadeFacts.

(** ** The dispatch engine *)

Module DispatchTheorems.
Import Log Dispatch DispatchFacts DispatchInvariant DispatchReach DispatchLive
  DispatchSkip FacadeFacts.

(** C1. When [HandleEntry] finds K channels for the level of the Entry, the
    completion counter is set to K before any send, and every return of a
    Field or of the Entry to its pool comes after K completion signals, one
    for each of the K copies sent: while the producer reclaims, no copy is
    in a buffer or with a goroutine.  When [HandleEntry] has returned, the
    Fields and the Entry are in their pools and the counter is back at zero;
    it is never below zero. *)
Theorem C1_barrier_before_reclaim (e : Entry) (k : Cont) (chs : list Chan)
  (s0 s : State) :
  st_pc s0 = AtHandleEntry e k →
  idle s0 →
  channels (st_logger s0) !! Entry_Level e = Some chs →
  reachable s0 s →
  (∀ post pre ch x, st_trace s = post ++ EvSend ch x :: pre →
     EvAdd (Entry_WG e) (length chs) (Z.of_nat (length chs)) ∈ pre)
  ∧ (∀ post pre ev, st_trace s = post ++ ev :: pre → is_reclaim ev →
       consumedCount pre = length chs ∧ sends pre = chs)
  ∧ match st_pc s with
    | AtReclaim _ _ _ | After _ | Done _ => inflight s = 0
    | _ => True
    end
  ∧ (returned (st_pc s) →
       putFields (st_trace s) = Entry_Fields e
       ∧ fieldPool (st_logger s) = rev (Entry_Fields e) ++ fieldPool (st_logger s0)
       ∧ entryPool (st_logger s) = e :: entryPool (st_logger s0))
  ∧ (0 ≤ wg_get s (Entry_WG e))%Z
  ∧ (returned (st_pc s) → wg_get s (Entry_WG e) = 0%Z).
Proof.
  intros Hpc Hidle Hchs Hreach.
  pose proof (Inv_reachable e k s0 Hpc s Hidle Hreach) as HI.
  assert (targets e s0 = chs) as Htg by (by eapply targets_Some).
  split; [|split; [|split; [|split]]].
  5: exact (Inv_counter e k s0 s HI).
  - intros post pre ch x Htr.
    pose proof (trace_wf_split e k s0 _ _ _ _ (inv_trace _ _ _ _ HI) Htr) as Hok.
    cbn in Hok. rewrite Htg in Hok. by destruct Hok.
  - intros post pre ev Htr Hev.
    pose proof (trace_wf_split e k s0 _ _ _ _ (inv_trace _ _ _ _ HI) Htr) as Hok.
    destruct ev; try done; cbn in Hok; rewrite Htg in Hok.
    + by destruct Hok.
    + by destruct Hok as (_ & ? & ? & _).
  - pose proof (Inv_reclaiming e k s0 s HI) as Hre.
    destruct (st_pc s); try done; by apply Hre.
  - intros Hret.
    by destruct (Inv_returned e k s0 s HI Hret) as (_ & _ & ? & ? & ?).
Qed.

(** C2. When no channel is registered for the level of the Entry,
    [HandleEntry] returns by the producer's own steps: it is never held up,
    it sets no counter, sends nothing and waits on no barrier, and when it
    has returned every Field of the Entry is in the Field pool and the Entry
    is in the Entry pool. *)
Theorem C2_no_channel_reclaims (e : Entry) (k : Cont) (s0 : State) :
  st_pc s0 = AtHandleEntry e k →
  st_trace s0 = [] →
  channels (st_logger s0) !! Entry_Level e = None →
  st_pc (prod_run (length (Entry_Fields e) + 2) s0) = After k
  ∧ ∀ s, reachable s0 s →
      ((∀ o, st_pc s ≠ Done o) → is_Some (prod_step s))
      ∧ Forall (λ ev, ¬ is_delivery ev) (st_trace s)
      ∧ (returned (st_pc s) →
           putFields (st_trace s) = Entry_Fields e
           ∧ putEntries (st_trace s) = [e]
           ∧ fieldPool (st_logger s) = rev (Entry_Fields e) ++ fieldPool (st_logger s0)
           ∧ entryPool (st_logger s) = e :: entryPool (st_logger s0)).
Proof.
  intros Hpc Htr Hroute. split; [by apply prod_run_skip|].
  intros s Hreach.
  pose proof (Skip_reachable e k s0 Hpc Hroute s Htr Hreach) as HS.
  split; [|split].
  - by apply (Skip_enabled e k s0).
  - by destruct HS.
  - by apply (Skip_returned e k s0).
Qed.

(** The order of the sends is the order of the routing list. *)
Lemma sends_in_list_order (e : Entry) (k : Cont) (s0 s : State) :
  st_pc s0 = AtHandleEntry e k → idle s0 → reachable s0 s →
  (∃ rest, sends (st_trace s) ++ rest = registered (Entry_Level e) s0)
  ∧ (returned (st_pc s) → sends (st_trace s) = registered (Entry_Level e) s0).
Proof.
  intros Hpc Hidle Hreach.
  pose proof (Inv_reachable e k s0 Hpc s Hidle Hreach) as HI. split.
  - by apply (Inv_sends_prefix e k).
  - intros Hret. by destruct (Inv_returned e k s0 s HI Hret) as (? & _).
Qed.

(** A facade call: the Entry it makes, its end, and what precedes an exit
    or a panic. *)
Lemma logAt_spec (level : Level) (message : string) (k : Cont) (now : Time)
  (s0 : State) :
  idle s0 → served level s0 →
  let e := made level message now s0 in
  let s1 := called level message k now s0 in
  st_pc s1 = AtHandleEntry e k
  ∧ Entry_Level e = level ∧ Entry_Message e = message ∧ Entry_Fields e = []
  ∧ st_pc (run (weight s1) s1) = Done (outcome_of k)
  ∧ (∀ n s, nsteps step n s1 s → n ≤ weight s1)
  ∧ ∀ s, reachable s1 s →
      ((∀ o, st_pc s ≠ Done o) → ∃ s', step s s')
      ∧ (∀ o, st_pc s = Done o → o = outcome_of k)
      ∧ ∀ post pre ev, st_trace s = post ++ ev :: pre → is_fatal ev →
          outcome_of k ≠ Returned
          ∧ match ev with
            | EvExit code => k = KExit code
            | EvPanic v => k = KPanic v
            | _ => False
            end
          ∧ EvPutEntry e ∈ pre
          ∧ sends pre = registered level s0
          ∧ consumedCount pre = length (registered level s0).
Proof.
  intros Hidle Hserved e s1.
  destruct (made_entry level message now s0) as (Hl & Hm & Hf).
  split; [apply called_pc|]. do 3 (split; [done|]).
  split; [by apply called_ends|].
  split; [intros n s Hn; apply steps_bounded in Hn; lia|].
  intros s Hreach. pose proof (called_Inv level message k now s0 s Hidle Hreach) as HI.
  split; [by apply (called_no_deadlock level message k now s0)|].
  split.
  - intros o Ho. by eapply Inv_outcome.
  - intros post pre ev Htr Hev.
    pose proof (trace_wf_split _ _ _ _ _ _ _ (inv_trace _ _ _ _ HI) Htr) as Hok.
    rewrite <- (called_registered level message k now s0).
    destruct ev; try done; cbn in Hok; destruct Hok as (-> & ? & ? & ?); done.
Qed.

(** The routing list of a level after the loop of [RegisterHandler]. *)
Lemma registerLevel_fold (ch : Chan) (levels : list Level) (l : logger)
  (level : Level) :
  default [] (channels (foldl (registerLevel ch) l levels) !! level)
  = default [] (channels l !! level)
    ++ replicate (length (filter (λ x, x = level) levels)) ch.
Proof.
  revert l. induction levels as [|x levels IH]; intros l; cbn [foldl].
  - by rewrite app_nil_r.
  - rewrite IH. unfold registerLevel. cbn [channels].
    destruct (decide (x = level)) as [->|Hne].
    + rewrite lookup_insert_eq, filter_cons_True by done. cbn.
      rewrite <- app_assoc. cbn [app]. by destruct (channels l !! level).
    + by rewrite lookup_insert_ne, filter_cons_False by done.
Qed.

Lemma filter_absent (level : Level) (levels : list Level) :
  level ∉ levels → filter (λ x, x = level) levels = [].
Proof.
  induction levels as [|x levels IH]; intros Hnot; [done|].
  apply not_elem_of_cons in Hnot as [Hne Hnot].
  rewrite filter_cons_False; [by apply IH|]. by intros ->.
Qed.

Lemma registerLevel_fold_other (ch : Chan) (levels : list Level) (l : logger)
  (level : Level) :
  level ∉ levels →
  channels (foldl (registerLevel ch) l levels) !! level = channels l !! level.
Proof.
  revert l. induction levels as [|x levels IH]; intros l Hnot; cbn [foldl]; [done|].
  apply not_elem_of_cons in Hnot as [Hne Hnot].
  rewrite IH by done. unfold registerLevel. cbn. by rewrite lookup_insert_ne.
Qed.

Lemma registerLevel_fold_pools (ch : Chan) (levels : list Level) (l : logger) :
  fieldPool (foldl (registerLevel ch) l levels) = fieldPool l
  ∧ entryPool (foldl (registerLevel ch) l levels) = entryPool l
  ∧ timeFormat (foldl (registerLevel ch) l levels) = timeFormat l.
Proof.
  revert l. induction levels as [|x levels IH]; intros l; cbn [foldl]; [done|].
  destruct (IH (registerLevel ch l x)) as (-> & -> & ->). done.
Qed.

(** C7. [RegisterHandler] calls [Run] once: apart from the routing table and
    the record of the call, the state is the one a single [Run] leaves.  The
    channel [Run] returned is appended to the list of every level named, as
    many times as the level is named, after the channels registered before;
    the lists of the other levels are untouched.  A dispatch sends to the
    channels of the list in the order of the list. *)
Theorem C7_RegisterHandler_appends (handler : Handler) (levels : list Level)
  (s : State) :
  let ch := (Run handler s).1 in
  let s1 := (Run handler s).2 in
  let s2 := RegisterHandler handler levels s in
  (st_trace s2 = EvRun ch :: st_trace s1
   ∧ st_chans s2 = st_chans s1 ∧ st_wg s2 = st_wg s1 ∧ st_pc s2 = st_pc s1
   ∧ fieldPool (st_logger s2) = fieldPool (st_logger s1)
   ∧ entryPool (st_logger s2) = entryPool (st_logger s1))
  ∧ (∀ level,
       registered level s2
       = registered level s1 ++ replicate (length (filter (λ x, x = level) levels)) ch)
  ∧ (∀ level, level ∈ levels → NoDup levels →
       registered level s2 = registered level s1 ++ [ch])
  ∧ (∀ level, level ∉ levels →
       channels (st_logger s2) !! level = channels (st_logger s1) !! level)
  ∧ (∀ e k sd s',
       st_pc sd = AtHandleEntry e k → idle sd → reachable sd s' →
       (∃ rest, sends (st_trace s') ++ rest = registered (Entry_Level e) sd)
       ∧ (returned (st_pc s') → sends (st_trace s') = registered (Entry_Level e) sd)).
Proof.
  intros ch s1 s2. unfold s2, RegisterHandler. fold ch s1.
  destruct (Run handler s) as [ch' s1'] eqn:Hrun. cbn in ch, s1. subst ch s1.
  split; [|split; [|split; [|split]]].
  - cbn. destruct (registerLevel_fold_pools ch' levels (st_logger s1')) as (? & ? & _).
    done.
  - intros level. unfold registered. cbn. apply registerLevel_fold.
  - intros level Hin Hnd. unfold registered. cbn. rewrite registerLevel_fold.
    f_equal.
    assert (length (filter (λ x, x = level) levels) = 1) as ->; [|done].
    clear -Hin Hnd. induction Hnd as [|x levels Hx Hnd IH]; [by apply elem_of_nil in Hin|].
    apply elem_of_cons in Hin as [->|Hin].
    + rewrite filter_cons_True by done. cbn. by rewrite filter_absent.
    + rewrite filter_cons_False; [by apply IH|]. intros ->. done.
  - intros level Hnot. cbn. by apply registerLevel_fold_other.
  - intros e k sd s'. apply sends_in_list_order.
Qed.

(** C9. [WithFields] returns an Entry at Info level, with an empty message
    and the given fields; it makes no call to [HandleEntry], nothing is
    sent, and the fields are in the Entry it returns. *)
Theorem C9_WithFields_entry (fields : list Field) (now : Time) (s : State) :
  let e := (WithFields fields now s).1 in
  let s' := (WithFields fields now s).2 in
  Entry_Level e = InfoLevel ∧ Entry_Message e = ""%string ∧ Entry_Fields e = fields
  ∧ st_pc s' = st_pc s ∧ st_trace s' = st_trace s ∧ st_chans s' = st_chans s
  ∧ st_wg s' = st_wg s
  ∧ channels (st_logger s') = channels (st_logger s).
Proof.
  intros e s'. unfold e, s', WithFields.
  destruct (newEntry_entry InfoLevel "" fields now s) as (? & ? & ? & _).
  destruct (newEntry_state InfoLevel "" fields now s) as (? & ? & ? & ? & ? & _).
  done.
Qed.

Section Facade.

Variable Sprint : list Any → string.
Variable Sprintf : string → list Any → string.

(** C3. [Fatal] and [Fatalf] end in [exitFunc(1)]: the scheduler brings the
    call to the exit with status 1; however the steps are scheduled there
    are boundedly many, something can move until the call has ended, and the
    call ends in no other way.  In every execution the exit comes after
    [HandleEntry] has returned the Entry to its pool, after one send to each
    channel registered for the Fatal level and as many completion
    signals. *)
Theorem C3_Fatal_exits_after_dispatch (v : list Any) (msg : string) (now : Time)
  (s0 s1 : State) :
  idle s0 → served FatalLevel s0 →
  s1 = Fatal Sprint v now s0 ∨ s1 = Fatalf Sprintf msg v now s0 →
  st_pc (run (weight s1) s1) = Done (Exited 1)
  ∧ (∀ n s, nsteps step n s1 s → n ≤ weight s1)
  ∧ ∀ s, reachable s1 s →
      ((∀ o, st_pc s ≠ Done o) → ∃ s', step s s')
      ∧ (∀ o, st_pc s = Done o → o = Exited 1)
      ∧ ∀ post pre code, st_trace s = post ++ EvExit code :: pre →
          code = 1%Z
          ∧ (∃ e, Entry_Level e = FatalLevel ∧ EvPutEntry e ∈ pre)
          ∧ sends pre = registered FatalLevel s0
          ∧ consumedCount pre = length (registered FatalLevel s0).
Proof.
  intros Hidle Hserved Hs1.
  assert (∃ m, s1 = called FatalLevel m (KExit 1) now s0) as [m ->].
  { destruct Hs1 as [->| ->]; by eexists. }
  destruct (logAt_spec FatalLevel m (KExit 1) now s0 Hidle Hserved)
    as (_ & Hl & _ & _ & Hend & Hbound & Hsafe).
  split; [done|]. split; [done|].
  intros s Hreach. destruct (Hsafe s Hreach) as (Hlive & Hout & Hev).
  split; [done|]. split; [done|]. intros post pre code Htr.
  destruct (Hev post pre (EvExit code) Htr I) as (_ & [= <-] & ? & ? & ?).
  repeat split; try done. by eexists.
Qed.

(** C6. [Panic] and [Panicf] make an Entry at Error level that carries the
    rendered message and call [HandleEntry] on it; the scheduler brings the
    call to a panic whose value is that message; however the steps are
    scheduled there are boundedly many, something can move until the call
    has ended, and the call ends in no other way.  In every execution the
    panic comes after [HandleEntry] has returned the Entry to its pool. *)
Theorem C6_Panic_after_dispatch (v : list Any) (msg : string) (now : Time)
  (m : string) (s0 s1 : State) :
  idle s0 → served ErrorLevel s0 →
  (m = Sprint v ∧ s1 = Panic Sprint v now s0)
  ∨ (m = Sprintf msg v ∧ s1 = Panicf Sprintf msg v now s0) →
  ∃ e,
    st_pc s1 = AtHandleEntry e (KPanic m)
    ∧ Entry_Level e = ErrorLevel ∧ Entry_Message e = m
    ∧ st_pc (run (weight s1) s1) = Done (Panicked m)
    ∧ (∀ n s, nsteps step n s1 s → n ≤ weight s1)
    ∧ ∀ s, reachable s1 s →
        ((∀ o, st_pc s ≠ Done o) → ∃ s', step s s')
        ∧ (∀ o, st_pc s = Done o → o = Panicked m)
        ∧ ∀ post pre val, st_trace s = post ++ EvPanic val :: pre →
            val = m
            ∧ EvPutEntry e ∈ pre
            ∧ sends pre = registered ErrorLevel s0
            ∧ consumedCount pre = length (registered ErrorLevel s0).
Proof.
  intros Hidle Hserved Hs1.
  assert (s1 = called ErrorLevel m (KPanic m) now s0) as ->.
  { destruct Hs1 as [[-> ->]|[-> ->]]; done. }
  destruct (logAt_spec ErrorLevel m (KPanic m) now s0 Hidle Hserved)
    as (Hpc & Hl & Hm & _ & Hend & Hbound & Hsafe).
  exists (made ErrorLevel m now s0). do 5 (split; [done|]).
  intros s Hreach. destruct (Hsafe s Hreach) as (Hlive & Hout & Hev).
  split; [done|]. split; [done|]. intros post pre val Htr.
  destruct (Hev post pre (EvPanic val) Htr I) as (_ & [= <-] & ? & ? & ?).
  done.
Qed.

End Facade.

End DispatchTheorems.

(** ** The console handler: configuration and [Run] *)

Section ConsoleRun.

Variable Time_Format : Time → string → string.
Variable Level_String : Level → string.
Variable Sprintf_v : Any → string.
Variable Reset : string.
Variable defaultColors : Level → string.
Variable Getenv : string → string.
Variable PathSeparator : string.
Variable Sprint : list Any → string.

(** The loop of [Run] goes round once for each [i] from 0 to
    [int(c.numWorkers)], both included. *)
Lemma runLoop_count (fuel : nat) (c : Console.Console) (i n : Z)
  (ws : list Console.Worker) :
  (0 ≤ i ≤ n + 1)%Z → (n < 2 ^ 63 - 1)%Z → (Z.to_nat (n + 1 - i) < fuel) →
  Console.runLoop Time_Format Level_String Sprintf_v Reset fuel c i n ws
  = Some (ws ++ replicate (Z.to_nat (n + 1 - i))
                  (Console.handleLog Time_Format Level_String Sprintf_v Reset c)).
Proof.
  revert i ws. induction fuel as [|fuel IH]; intros i ws Hi Hn Hfuel; [lia|].
  cbn [Console.runLoop]. destruct (decide (i ≤ n)%Z) as [Hle|Hgt].
  - unfold Console.incr_int. rewrite decide_True by lia.
    rewrite IH by lia. rewrite <- app_assoc. do 2 f_equal.
    replace (Z.to_nat (n + 1 - i)) with (S (Z.to_nat (n + 1 - (i + 1)))) by lia.
    done.
  - replace (n + 1 - i)%Z with 0%Z by lia. cbn. by rewrite app_nil_r.
Qed.

(** For every worker count below the largest [int], [Run] makes the channel
    with the configured buffer size and starts one goroutine more than the
    configured number, each with the Formatter it got from the factory. *)
Lemma Run_workers (c : Console.Console) :
  (0 ≤ Console.numWorkers c < 2 ^ 63 - 1)%Z →
  ∃ c' st,
    Console.Run Time_Format Level_String Sprintf_v Reset Getenv PathSeparator
      (Z.to_nat (Console.numWorkers c) + 2) c = Some (c', st)
    ∧ Console.run_cap st = Console.buffer c
    ∧ length (Console.run_workers st) = Z.to_nat (Console.numWorkers c) + 1
    ∧ Forall (eq (Console.handleLog Time_Format Level_String Sprintf_v Reset c'))
        (Console.run_workers st).
Proof.
  intros Hn. unfold Console.Run.
  set (c' := if decide (Console.fileDisplay c = Console.Llongfile) then _ else c).
  assert (Console.numWorkers c' = Console.numWorkers c
          ∧ Console.buffer c' = Console.buffer c) as [Hw Hb].
  { unfold c'. by destruct (decide _). }
  rewrite Hw. unfold Console.int_of_uint. rewrite decide_True by lia.
  rewrite runLoop_count by lia. cbn.
  eexists _, _. split; [done|]. cbn. rewrite Hb.
  replace (Console.numWorkers c + 1 - 0)%Z with (Console.numWorkers c + 1)%Z by lia.
  rewrite length_replicate. repeat split; [lia|].
  apply Forall_forall. by intros w [-> _]%elem_of_replicate.
Qed.

(** C4, on the code. [New] configures one worker, and [Run] on it makes a
    channel of the configured buffer size (0) and starts two consumption
    goroutines, each with a Formatter of its own from the factory. *)
Theorem C4_Run_starts_one_worker_too_many :
  let c := Console.New defaultColors in
  Console.numWorkers c = 1%Z
  ∧ Console.Run Time_Format Level_String Sprintf_v Reset Getenv PathSeparator 3 c
    = Some (c, Console.mkStarted (Console.buffer c)
                 [Console.handleLog Time_Format Level_String Sprintf_v Reset c;
                  Console.handleLog Time_Format Level_String Sprintf_v Reset c]).
Proof. split; reflexivity. Qed.

(** C8. [SetBuffersAndWorkers] stores the buffer size; a worker count of
    zero is stored as 1, after a line on Go's standard logger and a warning
    through [log.Warn]; any other worker count is stored as it is, with no
    call.  The warning is a call of [Warn] on an Entry at Warn level, and
    such a call can only return: it never reaches an exit or a panic, and
    with a goroutine behind every channel the scheduler brings it to its
    return. *)
Theorem C8_zero_workers_corrected (size workers : Z) (c : Console.Console)
  (now : Time) (s0 s : Log.State) :
  let r := Console.SetBuffersAndWorkers size workers c in
  Console.buffer r.1 = size
  ∧ (workers = 0%Z →
       Console.numWorkers r.1 = 1%Z
       ∧ r.2 = [Console.StdlogPrintln [AString Console.invalidWorkers];
                Console.LogWarn [AString Console.invalidWorkers]])
  ∧ (workers ≠ 0%Z → Console.numWorkers r.1 = workers ∧ r.2 = [])
  ∧ (∀ v, Console.LogWarn v ∈ r.2 →
       let s1 := Console.perform Sprint (Console.LogWarn v) now s0 in
       (∃ e, Log.st_pc s1 = Log.AtHandleEntry e Log.KReturn
             ∧ Entry_Level e = WarnLevel ∧ Entry_Message e = Sprint v)
       ∧ (Forall (λ ev, ¬ Dispatch.is_fatal ev) (Log.st_trace s0) →
          Log.reachable s1 s →
          Forall (λ ev, ¬ Dispatch.is_fatal ev) (Log.st_trace s)
          ∧ ∀ o, Log.st_pc s = Log.Done o → o = Log.Returned)
       ∧ (Dispatch.idle s0 → Dispatch.served WarnLevel s0 →
          Log.st_pc (Log.run (Dispatch.weight s1) s1) = Log.Done Log.Returned)).
Proof.
  intros r. unfold r, Console.SetBuffersAndWorkers.
  split; [by destruct (decide (workers = 0%Z))|].
  split; [intros ->; by rewrite decide_True|].
  split; [intros Hne; by rewrite decide_False|].
  intros v Hv. cbv zeta. unfold Console.perform, Log.Warn.
  fold (Dispatch.called WarnLevel (Sprint v) Log.KReturn now s0).
  pose proof (FacadeFacts.called_pc WarnLevel (Sprint v) Log.KReturn now s0) as Hpc.
  destruct (FacadeFacts.made_entry WarnLevel (Sprint v) now s0) as (Hl & Hm & _).
  destruct (FacadeFacts.called_state WarnLevel (Sprint v) Log.KReturn now s0)
    as (Htr & _).
  split; [by eexists|]. split.
  - intros Hquiet Hreach.
    assert (Dispatch.calm (Dispatch.called WarnLevel (Sprint v) Log.KReturn now s0))
      as Hcalm.
    { split; [by rewrite Htr|]. left. by rewrite Hpc. }
    destruct (DispatchSkip.calm_reachable _ _ Hcalm Hreach) as [Hq Hpcs].
    split; [done|]. intros o Ho. rewrite Ho in Hpcs.
    destruct Hpcs as [[=]|[= ->]]. done.
  - intros Hidle Hserved.
    exact (FacadeFacts.called_ends WarnLevel (Sprint v) Log.KReturn now s0
             Hidle Hserved).
Qed.

End ConsoleRun.

(** ** The theorems at work on the sample states *)

Module Witnesses.
Import Log Dispatch DispatchLive DispatchTheorems.

Lemma state2_idle : idle Samples.state2.
Proof.
  split; [|split].
  - by repeat constructor.
  - apply map_Forall_empty.
  - reflexivity.
Defined.

Lemma state2_served (level : Level) : served level Samples.state2.
Proof.
  split.
  - repeat constructor.
  - destruct level; vm_compute; repeat constructor.
Defined.

Lemma C1_barrier_before_reclaim_witness :
  let s := run 13 Samples.errorDispatch in
  (∀ post pre ch x, st_trace s = post ++ EvSend ch x :: pre →
     EvAdd 7 2 2 ∈ pre)
  ∧ (∀ post pre ev, st_trace s = post ++ ev :: pre → is_reclaim ev →
       consumedCount pre = 2 ∧ sends pre = [0; 1])
  ∧ inflight s = 0
  ∧ (returned (st_pc s) →
       putFields (st_trace s) = Entry_Fields Samples.errorEntry
       ∧ fieldPool (st_logger s)
         = rev (Entry_Fields Samples.errorEntry)
           ++ fieldPool (st_logger Samples.errorDispatch)
       ∧ entryPool (st_logger s)
         = Samples.errorEntry :: entryPool (st_logger Samples.errorDispatch))
  ∧ (0 ≤ wg_get s 7%nat)%Z
  ∧ (returned (st_pc s) → wg_get s 7 = 0%Z).
Proof.
  exact (C1_barrier_before_reclaim Samples.errorEntry KReturn [0; 1]
           Samples.errorDispatch (run 13 Samples.errorDispatch)
           eq_refl state2_idle eq_refl (run_reachable 13 Samples.errorDispatch)).
Defined.

Lemma C2_no_channel_reclaims_witness :
  st_pc (prod_run 4 Samples.debugDispatch) = After KReturn
  ∧ ∀ s, reachable Samples.debugDispatch s →
      ((∀ o, st_pc s ≠ Done o) → is_Some (prod_step s))
      ∧ Forall (λ ev, ¬ is_delivery ev) (st_trace s)
      ∧ (returned (st_pc s) →
           putFields (st_trace s) = Entry_Fields Samples.debugEntry
           ∧ putEntries (st_trace s) = [Samples.debugEntry]
           ∧ fieldPool (st_logger s)
             = rev (Entry_Fields Samples.debugEntry)
               ++ fieldPool (st_logger Samples.debugDispatch)
           ∧ entryPool (st_logger s)
             = Samples.debugEntry :: entryPool (st_logger Samples.debugDispatch)).
Proof.
  exact (C2_no_channel_reclaims Samples.debugEntry KReturn Samples.debugDispatch
           eq_refl eq_refl eq_refl).
Defined.

Lemma C3_Fatal_exits_after_dispatch_witness :
  let s1 := Fatal Samples.sprint [AString "boom"] Samples.T0 Samples.state2 in
  st_pc (run (weight s1) s1) = Done (Exited 1)
  ∧ (∀ n s, nsteps step n s1 s → n ≤ weight s1)
  ∧ ∀ s, reachable s1 s →
      ((∀ o, st_pc s ≠ Done o) → ∃ s', step s s')
      ∧ (∀ o, st_pc s = Done o → o = Exited 1)
      ∧ ∀ post pre code, st_trace s = post ++ EvExit code :: pre →
          code = 1%Z
          ∧ (∃ e, Entry_Level e = FatalLevel ∧ EvPutEntry e ∈ pre)
          ∧ sends pre = registered FatalLevel Samples.state2
          ∧ consumedCount pre = length (registered FatalLevel Samples.state2).
Proof.
  exact (C3_Fatal_exits_after_dispatch Samples.sprint Samples.sprintf
           [AString "boom"] "" Samples.T0 Samples.state2 _
           state2_idle (state2_served FatalLevel) (or_introl eq_refl)).
Defined.

Lemma C6_Panic_after_dispatch_witness :
  let s1 := Panicf Samples.sprintf "no route to host" [] Samples.T0 Samples.state2 in
  ∃ e,
    st_pc s1 = AtHandleEntry e (KPanic "no route to host")
    ∧ Entry_Level e = ErrorLevel ∧ Entry_Message e = "no route to host"%string
    ∧ st_pc (run (weight s1) s1) = Done (Panicked "no route to host")
    ∧ (∀ n s, nsteps step n s1 s → n ≤ weight s1)
    ∧ ∀ s, reachable s1 s →
        ((∀ o, st_pc s ≠ Done o) → ∃ s', step s s')
        ∧ (∀ o, st_pc s = Done o → o = Panicked "no route to host")
        ∧ ∀ post pre val, st_trace s = post ++ EvPanic val :: pre →
            val = "no route to host"%string
            ∧ EvPutEntry e ∈ pre
            ∧ sends pre = registered ErrorLevel Samples.state2
            ∧ consumedCount pre = length (registered ErrorLevel Samples.state2).
Proof.
  exact (C6_Panic_after_dispatch Samples.sprint Samples.sprintf
           [] "no route to host" Samples.T0 "no route to host" Samples.state2 _
           state2_idle (state2_served ErrorLevel) (or_intror (conj eq_refl eq_refl))).
Defined.

Lemma C7_RegisterHandler_appends_witness :
  let s1 := RegisterHandler (channelHandler 2 1) [InfoLevel; ErrorLevel; FatalLevel]
              Samples.state0 in
  let s2 := RegisterHandler (channelHandler 0 2) [WarnLevel; ErrorLevel; FatalLevel] s1 in
  length (st_chans s2) = 2
  ∧ registered ErrorLevel s2 = registered ErrorLevel s1 ++ [1]
  ∧ channels (st_logger s2) !! InfoLevel = channels (st_logger s1) !! InfoLevel
  ∧ sends (st_trace (run 13 Samples.errorDispatch)) = [0; 1].
Proof.
  intros s1 s2.
  pose proof (C7_RegisterHandler_appends (channelHandler 0 2)
                [WarnLevel; ErrorLevel; FatalLevel] s1)
    as ((_ & Hchans & _) & _ & Hnamed & Hother & Horder).
  unfold s2. split; [by rewrite Hchans|]. split; [|split].
  - apply (Hnamed ErrorLevel).
    + apply list_elem_of_further, list_elem_of_here.
    + repeat constructor; intros Hin%list_elem_of_In; cbn in Hin;
        intuition discriminate.
  - apply (Hother InfoLevel).
    intros Hin%list_elem_of_In. cbn in Hin. intuition discriminate.
  - apply (Horder Samples.errorEntry KReturn Samples.errorDispatch
             (run 13 Samples.errorDispatch) eq_refl state2_idle
             (run_reachable 13 Samples.errorDispatch)).
    exact I.
Defined.

Lemma C8_zero_workers_corrected_witness :
  let c := Console.New Samples.noColors in
  let r := Console.SetBuffersAndWorkers 64 0 c in
  let s1 := Console.perform Samples.sprint
              (Console.LogWarn [AString Console.invalidWorkers]) Samples.T0
              Samples.state2 in
  let s := run 20 s1 in
  Console.buffer r.1 = 64%Z
  ∧ Console.numWorkers r.1 = 1%Z
  ∧ Console.numWorkers (Console.SetBuffersAndWorkers 64 4 c).1 = 4%Z
  ∧ Forall (λ ev, ¬ is_fatal ev) (st_trace s)
  ∧ (∀ o, st_pc s = Done o → o = Returned)
  ∧ st_pc (run (weight s1) s1) = Done Returned.
Proof.
  intros c r s1 s.
  pose proof (C8_zero_workers_corrected Samples.sprint 64 0 c Samples.T0
                Samples.state2 s) as (Hbuf & Hzero & _ & Hwarn).
  pose proof (C8_zero_workers_corrected Samples.sprint 64 4 c Samples.T0
                Samples.state2 s) as (_ & _ & Hfour & _).
  destruct (Hzero eq_refl) as [Hone Hcalls].
  destruct (Hfour ltac:(discriminate)) as [Hw _].
  destruct (Hwarn [AString Console.invalidWorkers]) as (_ & Hcalm & Hends).
  { rewrite Hcalls. apply list_elem_of_further, list_elem_of_here. }
  destruct (Hcalm (Forall_nil_2 _) (run_reachable 20 s1)) as [Hq Ho].
  pose proof (Hends state2_idle (state2_served WarnLevel)) as Hend.
  done.
Defined.

End Witnesses.

(** ** More on the console handler *)

Module ConsoleMore.

(** *** Strings *)

Lemma substring_all (s : string) : substring 0 (String.length s) s = s.
Proof. induction s as [|a s IH]; [done|]. cbn. by rewrite IH. Qed.

Lemma substring_split (s : string) (i : nat) :
  i ≤ String.length s →
  s = (substring 0 i s ++ substring i (String.length s - i) s)%string.
Proof.
  revert i. induction s as [|a s IH]; intros i Hi.
  - destruct i; [done|]. cbn in Hi. lia.
  - destruct i as [|i].
    + by rewrite Nat.sub_0_r, substring_all.
    + cbn in Hi. cbn.
      change (String a (substring 0 i s) ++ substring i (String.length s - i) s)%string
        with (String a (substring 0 i s ++ substring i (String.length s - i) s)).
      f_equal. apply IH. lia.
Qed.

Lemma length_append (s1 s2 : string) :
  String.length (s1 ++ s2) = String.length s1 + String.length s2.
Proof. induction s1 as [|a s1 IH]; [done|]. simpl. by rewrite IH. Qed.

Lemma string_app_assoc (s1 s2 s3 : string) :
  ((s1 ++ s2) ++ s3 = s1 ++ s2 ++ s3)%string.
Proof.
  induction s1 as [|a s1 IH]; [done|].
  change ((String a s1 ++ s2) ++ s3)%string with (String a ((s1 ++ s2) ++ s3)).
  change (String a s1 ++ s2 ++ s3)%string with (String a (s1 ++ s2 ++ s3)).
  by rewrite IH.
Qed.

Lemma length_substring_prefix (s : string) (i : nat) :
  i ≤ String.length s → String.length (substring 0 i s) = i.
Proof.
  revert i. induction s as [|a s IH]; intros i Hi.
  - destruct i; [done|]. cbn in Hi. lia.
  - destruct i as [|i]; [done|]. cbn in *. rewrite IH; lia.
Qed.

Lemma sliceFrom_append (s1 s2 : string) :
  Console.sliceFrom (String.length s1) (s1 ++ s2) = s2.
Proof.
  unfold Console.sliceFrom. induction s1 as [|a s1 IH].
  - simpl. by rewrite Nat.sub_0_r, substring_all.
  - simpl. exact IH.
Qed.

Lemma sliceFrom_zero (s : string) : Console.sliceFrom 0 s = s.
Proof. unfold Console.sliceFrom. by rewrite Nat.sub_0_r, substring_all. Qed.

Lemma sliceFrom_get (i k : nat) (file : string) :
  String.get k (Console.sliceFrom i file)
  = if decide (k < String.length file - i) then String.get (k + i) file else None.
Proof.
  unfold Console.sliceFrom. destruct (decide _) as [Hk|Hk].
  - by apply substring_correct1.
  - apply substring_correct2. lia.
Qed.

(** *** The short file name *)

Lemma shortLoop_cases (file : string) (i : nat) :
  (∃ j, 0 < j ≤ i
        ∧ String.get j file = Some Console.slash
        ∧ (∀ k, j < k ≤ i → String.get k file ≠ Some Console.slash)
        ∧ Console.shortLoop file i = Console.sliceFrom (j + 1) file)
  ∨ ((∀ k, 0 < k ≤ i → String.get k file ≠ Some Console.slash)
     ∧ Console.shortLoop file i = file).
Proof.
  induction i as [|i IH].
  - right. split; [lia | done].
  - cbn [Console.shortLoop]. destruct (decide _) as [Heq|Hne].
    + left. exists (S i). split; [lia|]. split; [done|]. split; [lia|].
      by replace (S i + 1) with (S (S i)) by lia.
    + destruct IH as [(j & Hj & Hget & Hno & Hres)|[Hno Hres]].
      * left. exists j. split; [lia|]. split; [done|]. split; [|done].
        intros k Hk. destruct (decide (k = S i)) as [->|]; [done|]. apply Hno. lia.
      * right. split; [|done].
        intros k Hk. destruct (decide (k = S i)) as [->|]; [done|]. apply Hno. lia.
Qed.

(** X1. The short file name is an end of the path, it has no '/' after its
    first byte, and shortening it again changes nothing. *)
Theorem X1_shortFile_is_last_segment (file : string) :
  (∃ pre, file = (pre ++ Console.shortFile file)%string)
  ∧ (∀ k, 0 < k → String.get k (Console.shortFile file) ≠ Some Console.slash)
  ∧ Console.shortFile (Console.shortFile file) = Console.shortFile file.
Proof.
  assert (∀ k, 0 < k → String.get k (Console.shortFile file) ≠ Some Console.slash)
    as Hclean.
  { unfold Console.shortFile.
    replace (Z.to_nat (Z.of_nat (String.length file) - 1))
      with (String.length file - 1) by lia.
    destruct (shortLoop_cases file (String.length file - 1))
      as [(j & Hj & Hget & Hno & ->)|[Hno ->]]; intros k Hk.
    - rewrite sliceFrom_get. destruct (decide _) as [Hlt|]; [|done].
      apply Hno. lia.
    - destruct (decide (k ≤ String.length file - 1)) as [Hle|Hgt]; [by apply Hno|].
      rewrite get_beyond by lia. done. }
  split; [|split; [done|]].
  - unfold Console.shortFile.
    replace (Z.to_nat (Z.of_nat (String.length file) - 1))
      with (String.length file - 1) by lia.
    destruct (shortLoop_cases file (String.length file - 1))
      as [(j & Hj & Hget & Hno & ->)|[Hno ->]].
    + exists (substring 0 (j + 1) file). apply substring_split. lia.
    + by exists ""%string.
  - unfold Console.shortFile at 1. apply shortLoop_no_slash.
    intros k Hk. apply Hclean. lia.
Qed.

(** *** The long file name *)

Lemma longFile_prefix (c : Console.Console) (rest : string) :
  Console.longFile c (Console.gopath c ++ rest) = Some rest.
Proof.
  unfold Console.longFile.
  rewrite decide_True by (rewrite length_append; lia).
  by rewrite sliceFrom_append.
Qed.

(** X2. In long-file mode the displayed file is the path without its first
    [len(c.gopath)] bytes, whatever these bytes are: a path that starts with
    the gopath is displayed without it, and slicing fails exactly when the
    path is shorter than the gopath. *)
Theorem X2_longFile_drops_gopath_bytes (c : Console.Console) (file rest : string) :
  Console.fileDisplay c = Console.Llongfile →
  Console.displayFile c (Console.gopath c ++ rest) = Some rest
  ∧ (Console.displayFile c file = None
     ↔ String.length file < String.length (Console.gopath c))
  ∧ (∀ out, Console.displayFile c file = Some out →
       ∃ pre, String.length pre = String.length (Console.gopath c)
              ∧ file = (pre ++ out)%string).
Proof.
  intros Hmode. unfold Console.displayFile.
  rewrite Hmode.
  destruct (decide (Console.Llongfile = Console.Lshortfile)) as [?|_]; [done|].
  split; [|split].
  - apply longFile_prefix.
  - unfold Console.longFile.
    destruct (decide _) as [Hle|Hgt]; split; try done; intros; lia.
  - intros out. unfold Console.longFile.
    destruct (decide _) as [Hle|]; [|done]. intros [= <-].
    exists (substring 0 (String.length (Console.gopath c)) file). split.
    + by apply length_substring_prefix.
    + by apply substring_split.
Qed.

Section Formatters.

Variable Time_Format : Time → string → string.
Variable Level_String : Level → string.
Variable Sprintf_v : Any → string.
Variable Reset : string.
Variable defaultColors : Level → string.
Variable Getenv : string → string.
Variable PathSeparator : string.

Lemma displayFile_None (c : Console.Console) (file : string) :
  Console.displayFile c file = None
  ↔ Console.fileDisplay c = Console.Llongfile
    ∧ String.length file < String.length (Console.gopath c).
Proof.
  unfold Console.displayFile, Console.longFile.
  destruct (decide (Console.fileDisplay c = Console.Lshortfile)) as [Hs|Hl].
  - split; [done|]. intros [Hmode _]. by rewrite Hs in Hmode.
  - assert (Console.fileDisplay c = Console.Llongfile) as Hmode
      by (by destruct (Console.fileDisplay c)).
    destruct (decide _); split; try done; try (intros [_ ?]; lia).
    intros _. split; [done | lia].
Qed.

Lemma default_body_None (c : Console.Console) (b : list byte) (e : Entry) :
  Console.fm_body (Console.defaultFormatFunc Time_Format Level_String Sprintf_v Reset c)
    b e = None
  ↔ Entry_Line e ≠ 0%Z
    ∧ Console.fileDisplay c = Console.Llongfile
    ∧ String.length (Entry_File e) < String.length (Console.gopath c).
Proof.
  rewrite <- displayFile_None.
  unfold Console.defaultFormatFunc.
  destruct (Console.displayColor c); cbn [Console.fm_body];
    unfold Console.colorFormatter, Console.plainFormatter;
    destruct (decide (Entry_Line e = 0%Z)) as [Hz|Hnz];
    destruct (Console.displayFile c (Entry_File e)); cbn; split; try done;
    by intros [? ?].
Qed.

(** The scratch buffer never shows in what a default formatter returns. *)
Lemma default_body_scratch (c : Console.Console) (b : list byte) (e : Entry) :
  Console.fm_body (Console.defaultFormatFunc Time_Format Level_String Sprintf_v Reset c)
    b e
  = Console.fm_body (Console.defaultFormatFunc Time_Format Level_String Sprintf_v Reset c)
      [] e.
Proof.
  unfold Console.defaultFormatFunc.
  destruct (Console.displayColor c); cbn [Console.fm_body];
    unfold Console.colorFormatter, Console.plainFormatter; by rewrite !take_0.
Qed.

(** X3. A goroutine with the default formatter fails on an entry exactly
    when the entry has a caller position, the mode is long-file and the file
    is shorter than the gopath; it then neither writes nor signals.
    Otherwise it writes the formatted bytes to the writer and then signals
    completion, once each. *)
Theorem X3_worker_fails_only_on_short_path (c : Console.Console) (e : Entry) :
  Console.formatFunc c = Console.FFDefault →
  let w := Console.handleLog Time_Format Level_String Sprintf_v Reset c in
  (Console.handleLog_body c w e = None
   ↔ Entry_Line e ≠ 0%Z
     ∧ Console.fileDisplay c = Console.Llongfile
     ∧ String.length (Entry_File e) < String.length (Console.gopath c))
  ∧ (∀ effects w', Console.handleLog_body c w e = Some (effects, w') →
       ∃ b, Console.fm_body (Console.wk_formatter w) [] e = Some b
            ∧ effects = [Console.Write (Console.writer c) b; Console.Consumed e]).
Proof.
  intros Hdef w. unfold w, Console.handleLog, Console.callFormatFunc. rewrite Hdef.
  unfold Console.handleLog_body, Console.format. cbn [Console.wk_formatter].
  rewrite <- (default_body_None c [] e).
  destruct (Console.fm_body _ (Console.fm_scratch _) e) as [b|] eqn:Hb;
    rewrite default_body_scratch in Hb; rewrite Hb; cbn.
  - split; [done|]. intros effects w' [= <- <-]. by exists b.
  - done.
Qed.

Lemma handleLog_defaultWorker (c : Console.Console) :
  Console.formatFunc c = Console.FFDefault →
  Console.handleLog Time_Format Level_String Sprintf_v Reset c
  = More.defaultWorker Time_Format Level_String Sprintf_v Reset c [].
Proof.
  intros Hdef. unfold Console.handleLog, Console.callFormatFunc, More.defaultWorker.
  rewrite Hdef. unfold Console.defaultFormatFunc. by destruct (Console.displayColor c).
Qed.

Lemma handleLog_body_defaultWorker (c : Console.Console) (scratch : list byte)
  (e : Entry) :
  Console.handleLog_body c
    (More.defaultWorker Time_Format Level_String Sprintf_v Reset c scratch) e
  = (b ← Console.fm_body
           (Console.defaultFormatFunc Time_Format Level_String Sprintf_v Reset c) [] e;
     Some ([Console.Write (Console.writer c) b; Console.Consumed e],
           More.defaultWorker Time_Format Level_String Sprintf_v Reset c b)).
Proof.
  unfold Console.handleLog_body, Console.format, More.defaultWorker.
  cbn [Console.wk_formatter Console.fm_body Console.fm_scratch].
  rewrite default_body_scratch.
  by destruct (Console.fm_body _ [] e).
Qed.

(** X4. What a goroutine does with the entries it receives, in order: for
    each entry one write of the bytes that a new formatter gives for that
    entry alone, then the completion signal for that entry.  The scratch
    buffer its formatter reuses carries nothing from one entry to the
    next. *)
Theorem X4_worker_loop_effects (c : Console.Console) (entries : list Entry) :
  Console.formatFunc c = Console.FFDefault →
  fst <$> More.handleLog_loop c
            (Console.handleLog Time_Format Level_String Sprintf_v Reset c) entries
  = @concat Console.Effect
    <$> mapM (λ e,
          b ← Console.fm_body
                (Console.defaultFormatFunc Time_Format Level_String Sprintf_v Reset c)
                [] e;
          Some [Console.Write (Console.writer c) b; Console.Consumed e])
        entries.
Proof.
  intros Hdef. rewrite (handleLog_defaultWorker c Hdef).
  generalize (@nil byte) at 1. induction entries as [|e entries IH]; intros scratch.
  - done.
  - cbn [More.handleLog_loop mapM]. rewrite handleLog_body_defaultWorker.
    destruct (Console.fm_body _ [] e) as [b|]; [|done].
    cbn [mbind option_bind]. specialize (IH b).
    destruct (More.handleLog_loop c _ entries) as [[effs w]|];
      destruct (mapM _ entries) as [effss|]; cbn in *; try done.
    by injection IH as ->.
Qed.

(** *** Colours and layout *)

Lemma appendString_empty (b : list byte) : Console.appendString b "" = b.
Proof. unfold Console.appendString. cbn. by rewrite app_nil_r. Qed.

Lemma colorFields_plain (b : list byte) (fs : list Field) :
  Console.colorFields Sprintf_v "" "" b fs = Console.plainFields Sprintf_v b fs.
Proof.
  revert b. induction fs as [|f fs IH]; intros b; [done|].
  cbn [Console.colorFields Console.plainFields].
  by rewrite !appendString_empty, IH.
Qed.

(** X5. With empty escape sequences (no colour for any level, empty reset)
    the coloured formatter gives the bytes of the plain one. *)
Theorem X5_colour_without_sequences_is_plain (c : Console.Console)
  (b : list byte) (e : Entry) :
  (∀ level, Console.colors c level = ""%string) →
  Console.colorFormatter Time_Format Level_String Sprintf_v "" c b e
  = Console.plainFormatter Time_Format Level_String Sprintf_v c b e.
Proof.
  intros Hnone. unfold Console.colorFormatter, Console.plainFormatter.
  rewrite Hnone.
  destruct (decide (Entry_Line e = 0%Z)).
  - cbn. by rewrite !appendString_empty, colorFields_plain.
  - destruct (Console.displayFile c (Entry_File e)); [|done]. cbn.
    by rewrite !appendString_empty, colorFields_plain.
Qed.

Lemma appendValue_app (b : list byte) (v : Any) :
  Console.appendValue Sprintf_v b v = b ++ Console.appendValue Sprintf_v [] v.
Proof. by destruct v. Qed.

Lemma plainFields_app (b : list byte) (fs : list Field) :
  Console.plainFields Sprintf_v b fs
  = b ++ flat_map (λ f, Console.space :: list_byte_of_string (Key f)
                        ++ Console.equals
                           :: Console.appendValue Sprintf_v [] (Value f)) fs.
Proof.
  revert b. induction fs as [|f fs IH]; intros b; cbn [Console.plainFields flat_map].
  - by rewrite app_nil_r.
  - rewrite IH, appendValue_app. unfold Console.appendString.
    rewrite <- !app_assoc. cbn. by rewrite <- !app_assoc.
Qed.

(** X6. The layout of a plain line, for every entry: the timestamp, a
    space, the level name after as many spaces as it is short of 6 bytes
    (none when it is longer), a space, the location ("file:line" and a
    space) when the entry has a caller position, the message, then for each
    field in order a space, the key, '=' and the value, and a line feed. *)
Theorem X6_plain_layout (c : Console.Console) (b : list byte) (e : Entry) :
  let lvl := Level_String (Entry_Level e) in
  Console.plainFormatter Time_Format Level_String Sprintf_v c b e
  = (loc ← (if decide (Entry_Line e = 0%Z) then Some []
            else (λ file, list_byte_of_string file
                          ++ Console.colon :: Console.AppendInt [] (Entry_Line e)
                          ++ [Console.space])
                 <$> Console.displayFile c (Entry_File e));
     Some (list_byte_of_string
             (Time_Format (Entry_Timestamp e) (Console.timestampFormat c))
           ++ Console.space :: replicate (6 - String.length lvl) Console.space
           ++ list_byte_of_string lvl
           ++ Console.space :: loc
           ++ list_byte_of_string (Entry_Message e)
           ++ flat_map (λ f, Console.space :: list_byte_of_string (Key f)
                             ++ Console.equals
                                :: Console.appendValue Sprintf_v [] (Value f))
                (Entry_Fields e)
           ++ [Console.newLine])).
Proof.
  intros lvl. unfold Console.plainFormatter. rewrite take_0.
  fold lvl. unfold Console.padLevel. rewrite !padLoop_replicate.
  replace (Z.to_nat (6 - Z.of_nat (String.length lvl))) with (6 - String.length lvl)
    by lia.
  destruct (decide (Entry_Line e = 0%Z)).
  - cbn [mbind option_bind]. rewrite plainFields_app. unfold Console.appendString.
    f_equal. by rewrite <- ?app_assoc.
  - destruct (Console.displayFile c (Entry_File e)) as [file|]; [|done].
    cbn [mbind option_bind fmap option_fmap option_map].
    rewrite plainFields_app. unfold Console.AppendInt, Console.appendString.
    f_equal. repeat (cbn [app]; rewrite <- app_assoc). done.
Qed.

(** *** [Run] *)

Lemma incr_int_range (i : Z) :
  (- 2 ^ 63 ≤ i < 2 ^ 63)%Z → (- 2 ^ 63 ≤ Console.incr_int i < 2 ^ 63)%Z.
Proof. intros Hi. unfold Console.incr_int. destruct (decide _); lia. Qed.

Lemma runLoop_never_ends (fuel : nat) (c : Console.Console) (i : Z)
  (ws : list Console.Worker) :
  (- 2 ^ 63 ≤ i < 2 ^ 63)%Z →
  Console.runLoop Time_Format Level_String Sprintf_v Reset fuel c i (2 ^ 63 - 1) ws
  = None.
Proof.
  revert i ws. induction fuel as [|fuel IH]; intros i ws Hi; [done|].
  cbn [Console.runLoop]. rewrite decide_True by lia.
  apply IH. by apply incr_int_range.
Qed.

(** What [Run] does to the configuration. *)
Lemma Run_config (fuel : nat) (c c' : Console.Console) (st : Console.Started) :
  Console.Run Time_Format Level_String Sprintf_v Reset Getenv PathSeparator fuel c
  = Some (c', st) →
  c' = (if decide (Console.fileDisplay c = Console.Llongfile)
        then Console.mkConsole (Console.buffer c) (Console.numWorkers c)
               (Console.colors c) (Console.writer c) (Console.formatFunc c)
               (Console.timestampFormat c)
               (if decide (String.length (Getenv "GOPATH") ≠ 0)
                then (Getenv "GOPATH" ++ PathSeparator ++ "src" ++ PathSeparator)%string
                else Getenv "GOPATH")
               (Console.fileDisplay c) (Console.displayColor c)
        else c).
Proof.
  unfold Console.Run. intros Hrun.
  destruct (Console.runLoop _ _ _ _ _ _ _ _ _) as [ws|]; [|done].
  cbn in Hrun. by injection Hrun as <- _.
Qed.

(** X7. A worker count that does not fit an [int] defeats [Run]: from 2^63
    on the converted count is negative and [Run] makes the channel without
    starting any goroutine; at 2^63 - 1 every [i] passes the test and the
    loop never ends. *)
Theorem X7_Run_worker_count_beyond_int (c : Console.Console) (fuel : nat) :
  ((2 ^ 63 ≤ Console.numWorkers c < 2 ^ 64)%Z →
   ∃ c',
     Console.Run Time_Format Level_String Sprintf_v Reset Getenv PathSeparator
       (S fuel) c
     = Some (c', Console.mkStarted (Console.buffer c) []))
  ∧ (Console.numWorkers c = (2 ^ 63 - 1)%Z →
     Console.Run Time_Format Level_String Sprintf_v Reset Getenv PathSeparator fuel c
     = None).
Proof.
  split.
  - intros Hn. unfold Console.Run.
    set (c' := if decide (Console.fileDisplay c = Console.Llongfile) then _ else c).
    assert (Console.numWorkers c' = Console.numWorkers c
            ∧ Console.buffer c' = Console.buffer c) as [Hw Hb].
    { unfold c'. by destruct (decide _). }
    rewrite Hw. unfold Console.int_of_uint. rewrite decide_False by lia.
    cbn [Console.runLoop]. rewrite decide_False by lia. cbn. rewrite Hb.
    by eexists.
  - intros Hn. unfold Console.Run.
    set (c' := if decide (Console.fileDisplay c = Console.Llongfile) then _ else c).
    assert (Console.numWorkers c' = Console.numWorkers c) as Hw.
    { unfold c'. by destruct (decide _). }
    rewrite Hw, Hn. unfold Console.int_of_uint. rewrite decide_True by lia.
    rewrite runLoop_never_ends by lia. done.
Qed.

(** X8. What [Run] resolves is what the formatters strip.  In short-file
    mode [Run] leaves the configuration alone.  In long-file mode, with
    GOPATH unset the displayed file is the whole path; with GOPATH set, a
    path under its "src" directory is displayed relative to that
    directory. *)
Theorem X8_Run_resolves_gopath (fuel : nat) (c c' : Console.Console)
  (st : Console.Started) :
  Console.Run Time_Format Level_String Sprintf_v Reset Getenv PathSeparator fuel c
  = Some (c', st) →
  (Console.fileDisplay c = Console.Lshortfile → c' = c)
  ∧ (Console.fileDisplay c = Console.Llongfile →
     (Getenv "GOPATH" = ""%string →
      ∀ file, Console.displayFile c' file = Some file)
     ∧ (Getenv "GOPATH" ≠ ""%string →
        ∀ rest,
          Console.displayFile c'
            (Getenv "GOPATH" ++ PathSeparator ++ "src" ++ PathSeparator ++ rest)
          = Some rest)).
Proof.
  intros Hrun. apply Run_config in Hrun. split.
  - intros Hs. rewrite Hrun, decide_False; [done|]. by rewrite Hs.
  - intros Hl. rewrite decide_True in Hrun by done.
    assert (Console.fileDisplay c' = Console.Llongfile) as Hl' by (by rewrite Hrun).
    split.
    + intros Hunset file.
      assert (Console.gopath c' = ""%string) as Hgp.
      { rewrite Hrun, Hunset. by cbn. }
      unfold Console.displayFile, Console.longFile. rewrite Hl', Hgp.
      destruct (decide (Console.Llongfile = Console.Lshortfile)) as [?|_]; [done|].
      cbn [String.length]. rewrite decide_True by lia.
      by rewrite sliceFrom_zero.
    + intros Hset rest.
      assert (String.length (Getenv "GOPATH") ≠ 0) as Hlen.
      { destruct (Getenv "GOPATH"); [done | by cbn]. }
      rewrite decide_True in Hrun by done.
      assert (Console.gopath c'
              = (Getenv "GOPATH" ++ PathSeparator ++ "src" ++ PathSeparator)%string)
        as Hgp by (by rewrite Hrun).
      pose proof (longFile_prefix c' rest) as Hstrip.
      rewrite Hgp, !string_app_assoc in Hstrip.
      unfold Console.displayFile. rewrite Hl'.
      by destruct (decide (Console.Llongfile = Console.Lshortfile)).
Qed.

End Formatters.

End ConsoleMore.

Module ConsoleMoreWitnesses.
Import ConsoleMore.

Lemma X2_longFile_drops_gopath_bytes_witness :
  Console.displayFile MoreSamples.startedLongConsole "/go/src/app/main.go"
  = Some "app/main.go"%string
  ∧ Console.displayFile MoreSamples.startedLongConsole "/x.go" = None.
Proof.
  pose proof (X2_longFile_drops_gopath_bytes MoreSamples.startedLongConsole
                "/x.go" "app/main.go" eq_refl) as (Hstrip & Hshort & _).
  split; [exact Hstrip|]. apply Hshort. cbn. lia.
Defined.

Lemma X3_worker_fails_only_on_short_path_witness :
  Console.handleLog_body MoreSamples.startedLongConsole
    (Console.handleLog Samples.timeFormat0 Samples.levelNames Samples.sprintf_v ""
       MoreSamples.startedLongConsole)
    (MoreSamples.locatedEntry "/x.go")
  = None.
Proof.
  pose proof (X3_worker_fails_only_on_short_path Samples.timeFormat0
                Samples.levelNames Samples.sprintf_v ""
                MoreSamples.startedLongConsole (MoreSamples.locatedEntry "/x.go")
                eq_refl) as [Hfail _].
  apply Hfail. split; [done|]. split; [done|]. cbn. lia.
Defined.

Lemma X4_worker_loop_effects_witness :
  fst <$> More.handleLog_loop Samples.plainConsole
            (Console.handleLog Samples.timeFormat0 Samples.levelNames
               Samples.sprintf_v "" Samples.plainConsole)
            [Samples.startedEntry Samples.T0 0; Samples.startedEntry 0%Z 1]
  = Some
      [Console.Write Console.Stderr
         (list_byte_of_string
            ("2016-04-10T12:40:09Z" ++ " " ++ "  INFO" ++ " " ++ "started"
             ++ " port=8080" ++ Samples.LF));
       Console.Consumed (Samples.startedEntry Samples.T0 0);
       Console.Write Console.Stderr
         (list_byte_of_string
            (" " ++ "  INFO" ++ " " ++ "started" ++ " port=8080" ++ Samples.LF));
       Console.Consumed (Samples.startedEntry 0%Z 1)].
Proof.
  exact (X4_worker_loop_effects Samples.timeFormat0 Samples.levelNames
           Samples.sprintf_v "" Samples.plainConsole
           [Samples.startedEntry Samples.T0 0; Samples.startedEntry 0%Z 1] eq_refl).
Defined.

Lemma X5_colour_without_sequences_is_plain_witness :
  Console.colorFormatter Samples.timeFormat0 Samples.levelNames Samples.sprintf_v ""
    Samples.plainConsole [] (Samples.startedEntry Samples.T0 0)
  = Console.plainFormatter Samples.timeFormat0 Samples.levelNames Samples.sprintf_v
      Samples.plainConsole [] (Samples.startedEntry Samples.T0 0).
Proof.
  exact (X5_colour_without_sequences_is_plain Samples.timeFormat0 Samples.levelNames
           Samples.sprintf_v Samples.plainConsole []
           (Samples.startedEntry Samples.T0 0) (λ _, eq_refl)).
Defined.

Lemma X7_Run_worker_count_beyond_int_witness :
  (∃ c',
     Console.Run Samples.timeFormat0 Samples.levelNames Samples.sprintf_v ""
       Samples.getenv0 "/" 1 (MoreSamples.crowdedConsole (2 ^ 63))
     = Some (c', Console.mkStarted 0 []))
  ∧ Console.Run Samples.timeFormat0 Samples.levelNames Samples.sprintf_v ""
      Samples.getenv0 "/" 1000 (MoreSamples.crowdedConsole (2 ^ 63 - 1))
    = None.
Proof.
  split.
  - apply (X7_Run_worker_count_beyond_int Samples.timeFormat0 Samples.levelNames
             Samples.sprintf_v "" Samples.getenv0 "/"
             (MoreSamples.crowdedConsole (2 ^ 63)) 0).
    split; [apply Z.leb_le | apply Z.ltb_lt]; reflexivity.
  - apply (X7_Run_worker_count_beyond_int Samples.timeFormat0 Samples.levelNames
             Samples.sprintf_v "" Samples.getenv0 "/"
             (MoreSamples.crowdedConsole (2 ^ 63 - 1)) 1000).
    reflexivity.
Defined.

Lemma X8_Run_resolves_gopath_witness :
  Console.Run Samples.timeFormat0 Samples.levelNames Samples.sprintf_v ""
    MoreSamples.getenvGo "/" 3 MoreSamples.longConsole
  = Some (MoreSamples.startedLongConsole,
          Console.mkStarted 0
            (replicate 2
               (Console.handleLog Samples.timeFormat0 Samples.levelNames
                  Samples.sprintf_v "" MoreSamples.startedLongConsole)))
  ∧ Console.displayFile MoreSamples.startedLongConsole "/go/src/app/main.go"
    = Some "app/main.go"%string.
Proof.
  split; [reflexivity|].
  pose proof (X8_Run_resolves_gopath Samples.timeFormat0 Samples.levelNames
                Samples.sprintf_v "" MoreSamples.getenvGo "/" 3
                MoreSamples.longConsole MoreSamples.startedLongConsole _ eq_refl)
    as [_ Hlong].
  destruct (Hlong eq_refl) as [_ Hset].
  apply (Hset ltac:(discriminate) "app/main.go"%string).
Defined.

End ConsoleMoreWitnesses.

(** ** More on dispatch *)

Module DispatchMore.
Import Log Dispatch DispatchFacts DispatchInvariant DispatchReach DispatchLive
  DispatchSkip FacadeFacts.

(** *** Channel by channel *)

Lemma sendsTo_send (ch ch' : Chan) (x : Entry) (pre : list Event) :
  More.sendsTo ch (EvSend ch' x :: pre)
  = More.sendsTo ch pre + (if decide (ch' = ch) then 1 else 0).
Proof.
  unfold More.sendsTo. cbn [sends]. rewrite filter_app, length_app. f_equal.
  rewrite filter_cons. by destruct (decide (ch' = ch)).
Qed.

Lemma heldAt_set_chan (s : State) (ch ch' : Chan) (c c' : ChanState) :
  st_chans s !! ch = Some c →
  More.heldAt ch' (set_chan ch c' s)
  = if decide (ch = ch') then held c' else More.heldAt ch' s.
Proof.
  intros Hc. unfold More.heldAt. cbn [set_chan st_chans].
  rewrite list_lookup_insert. apply lookup_lt_Some in Hc.
  destruct (decide (ch = ch')) as [->|Hne].
  - by rewrite decide_True.
  - rewrite decide_False; [done|]. by intros [? _].
Qed.

Lemma heldAt_lookup (s : State) (ch : Chan) (c : ChanState) :
  st_chans s !! ch = Some c → More.heldAt ch s = held c.
Proof. intros Hc. unfold More.heldAt. by rewrite Hc. Qed.

Lemma balance_step (s s' : State) :
  Transition s s' →
  (∀ ch, More.heldAt ch s + More.consumedBy ch (st_trace s)
         = More.sendsTo ch (st_trace s)) →
  ∀ ch, More.heldAt ch s' + More.consumedBy ch (st_trace s')
        = More.sendsTo ch (st_trace s').
Proof.
  intros Ht Hb ch0. specialize (Hb ch0).
  destruct Ht as
    [s e k chs Hpc Hchs|s e k Hpc Hchs|s e entry ch chs k c Hpc Hc Hroom
    |s e entry ch chs k c Hpc Hc Hfull Hcap Hready|s e entry k Hpc
    |s e k Hpc Hwg|s e f fs k Hpc|s e k Hpc|s Hpc|s code Hpc|s v Hpc
    |s ch c x buf Hc Hbuf Hready|s ch c i x Hc Hx]; try exact Hb.
  - change (More.heldAt ch0 (set_chan ch (mkChan (ch_cap c) (ch_buf c ++ [entry])
                                            (ch_workers c) (ch_busy c)) s)
            + More.consumedBy ch0 (st_trace s)
            = More.sendsTo ch0 (EvSend ch entry :: st_trace s)).
    rewrite sendsTo_send, (heldAt_set_chan s ch ch0 c _ Hc).
    destruct (decide (ch = ch0)) as [->|]; [|lia].
    rewrite (heldAt_lookup s ch0 c Hc) in Hb. unfold held in *.
    cbn [ch_buf ch_busy]. rewrite length_app. cbn [length]. lia.
  - change (More.heldAt ch0 (set_chan ch (mkChan (ch_cap c) (ch_buf c)
                                            (ch_workers c) (ch_busy c ++ [entry])) s)
            + More.consumedBy ch0 (st_trace s)
            = More.sendsTo ch0 (EvSend ch entry :: st_trace s)).
    rewrite sendsTo_send, (heldAt_set_chan s ch ch0 c _ Hc).
    destruct (decide (ch = ch0)) as [->|]; [|lia].
    rewrite (heldAt_lookup s ch0 c Hc) in Hb. unfold held in *.
    cbn [ch_buf ch_busy]. rewrite length_app. cbn [length]. lia.
  - change (More.heldAt ch0 (set_chan ch (mkChan (ch_cap c) buf (ch_workers c)
                                            (ch_busy c ++ [x])) s)
            + More.consumedBy ch0 (st_trace s)
            = More.sendsTo ch0 (st_trace s)).
    rewrite (heldAt_set_chan s ch ch0 c _ Hc).
    destruct (decide (ch = ch0)) as [->|]; [|lia].
    rewrite (heldAt_lookup s ch0 c Hc) in Hb. unfold held in *.
    cbn [ch_buf ch_busy]. rewrite length_app. rewrite Hbuf in Hb.
    cbn [length] in *. lia.
  - change (More.heldAt ch0 (set_chan ch (mkChan (ch_cap c) (ch_buf c) (ch_workers c)
                                            (delete i (ch_busy c))) s)
            + ((if decide (ch = ch0) then 1 else 0) + More.consumedBy ch0 (st_trace s))
            = More.sendsTo ch0 (st_trace s)).
    rewrite (heldAt_set_chan s ch ch0 c _ Hc).
    destruct (decide (ch = ch0)) as [->|]; [|lia].
    rewrite (heldAt_lookup s ch0 c Hc) in Hb. unfold held in *.
    cbn [ch_buf ch_busy]. rewrite length_delete by done.
    apply lookup_lt_Some in Hx. lia.
Qed.

Lemma idle_heldAt (s : State) (ch : Chan) : idle s → More.heldAt ch s = 0.
Proof.
  intros (Hchans & _ & _). unfold More.heldAt.
  destruct (st_chans s !! ch) as [c|] eqn:Hc; [|done].
  destruct (Forall_lookup_1 _ _ _ _ Hchans Hc) as [Hbuf Hbusy].
  cbn. unfold held. by rewrite Hbuf, Hbusy.
Qed.

Lemma balance_reachable (s0 s : State) :
  idle s0 → reachable s0 s →
  ∀ ch, More.heldAt ch s + More.consumedBy ch (st_trace s)
        = More.sendsTo ch (st_trace s).
Proof.
  intros Hidle Hreach.
  refine (rtc_ind_r
            (λ s, ∀ ch, More.heldAt ch s + More.consumedBy ch (st_trace s)
                        = More.sendsTo ch (st_trace s)) s0 _ _ s Hreach).
  - intros ch. rewrite (idle_heldAt s0 ch Hidle).
    destruct Hidle as (_ & _ & ->). done.
  - intros s1 s2 _ Hstep IH. eapply balance_step; [|exact IH].
    by apply step_Transition.
Qed.

Lemma trace_wf_entries (e : Entry) (k : Cont) (s0 : State) (tr : list Event)
  (ch : Chan) (x : Entry) :
  trace_wf e k s0 tr →
  EvSend ch x ∈ tr ∨ EvRecv ch x ∈ tr ∨ EvConsumed ch x ∈ tr →
  x = e.
Proof.
  induction tr as [|ev tr IH]; intros Hwf Hin.
  - by destruct Hin as [?%elem_of_nil|[?%elem_of_nil|?%elem_of_nil]].
  - destruct Hwf as [Hok Hwf].
    destruct Hin as [Hin|[Hin|Hin]]; apply elem_of_cons in Hin as [<-|Hin];
      try (apply IH; [done|]; auto; fail); cbn in Hok.
    + by destruct Hok.
    + done.
    + by destruct Hok.
Qed.

(** X9. Delivery channel by channel, in every execution of a dispatch from
    an idle state: what a channel is sent, what its goroutines receive and
    what they signal is the dispatched Entry and nothing else; no channel
    signals more often than it was sent to; and when [HandleEntry] has
    returned, each channel has signalled exactly as often as it occurs in
    the routing list of the level, so a channel that is not in the list has
    seen nothing. *)
Theorem X9_each_channel_acknowledges (e : Entry) (k : Cont) (s0 s : State) :
  st_pc s0 = AtHandleEntry e k →
  idle s0 →
  reachable s0 s →
  (∀ ch x, EvSend ch x ∈ st_trace s ∨ EvRecv ch x ∈ st_trace s
           ∨ EvConsumed ch x ∈ st_trace s → x = e)
  ∧ (∀ ch, More.consumedBy ch (st_trace s) ≤ More.sendsTo ch (st_trace s))
  ∧ (returned (st_pc s) →
     ∀ ch, More.consumedBy ch (st_trace s)
           = length (filter (λ x, x = ch) (registered (Entry_Level e) s0))
           ∧ More.sendsTo ch (st_trace s) = More.consumedBy ch (st_trace s)).
Proof.
  intros Hpc Hidle Hreach.
  pose proof (Inv_reachable e k s0 Hpc s Hidle Hreach) as HI.
  pose proof (balance_reachable s0 s Hidle Hreach) as Hb.
  split; [|split].
  - intros ch x. apply (trace_wf_entries e k s0). by destruct HI.
  - intros ch. specialize (Hb ch). lia.
  - intros Hret ch. specialize (Hb ch).
    assert (inflight s = 0) as Hnone.
    { apply (Inv_reclaiming e k s0 s HI). by destruct (st_pc s). }
    assert (More.heldAt ch s = 0) as Hheld.
    { unfold More.heldAt. destruct (st_chans s !! ch) as [c|] eqn:Hc; [|done].
      cbn. pose proof (held_lookup s ch c Hc). lia. }
    destruct (Inv_returned e k s0 s HI Hret) as (Hsends & _).
    split; [|lia]. rewrite Hheld in Hb. cbn in Hb. rewrite Hb.
    unfold More.sendsTo. by rewrite Hsends.
Qed.

(** *** After the return *)

Lemma others_step (e : Entry) (k : Cont) (s0 s s' : State) (r : WGRef) :
  Inv e k s0 s → Transition s s' → r ≠ Entry_WG e → wg_get s' r = wg_get s r.
Proof.
  intros HI Ht Hr.
  destruct Ht as
    [s e' k' chs Hpc Hchs|s e' k' Hpc Hchs|s e' entry ch chs k' c Hpc Hc Hroom
    |s e' entry ch chs k' c Hpc Hc Hfull Hcap Hready|s e' entry k' Hpc
    |s e' k' Hpc Hwg|s e' f fs k' Hpc|s e' k' Hpc|s Hpc|s code Hpc|s v Hpc
    |s ch c x buf Hc Hbuf Hready|s ch c i x Hc Hx]; try done.
  - pose proof (inv_phase _ _ _ _ HI) as Hph. rewrite Hpc in Hph.
    destruct Hph as (-> & _). frame. by rewrite wg_get_wg_add_ne.
  - pose proof (inv_items _ _ _ _ HI) as Hitems.
    destruct (Forall_lookup_1 _ _ _ _ Hitems Hc) as [_ Hbusy].
    pose proof (Forall_lookup_1 _ _ _ _ Hbusy Hx) as <-.
    frame. by rewrite wg_get_wg_add_ne.
Qed.

Lemma workers_step (s s' : State) :
  Transition s s' →
  ch_workers <$> st_chans s' = ch_workers <$> st_chans s.
Proof.
  intros Ht.
  destruct Ht as
    [s e' k' chs Hpc Hchs|s e' k' Hpc Hchs|s e' entry ch chs k' c Hpc Hc Hroom
    |s e' entry ch chs k' c Hpc Hc Hfull Hcap Hready|s e' entry k' Hpc
    |s e' k' Hpc Hwg|s e' f fs k' Hpc|s e' k' Hpc|s Hpc|s code Hpc|s v Hpc
    |s ch c x buf Hc Hbuf Hready|s ch c i x Hc Hx]; try done.
  all: cbn [st_chans set_pc log_event set_chan wg_add];
    rewrite list_fmap_insert; apply list_insert_id;
    rewrite list_lookup_fmap; exact (f_equal (fmap ch_workers) Hc).
Qed.

Lemma frame_reachable (e : Entry) (k : Cont) (s0 s : State) :
  st_pc s0 = AtHandleEntry e k → idle s0 → reachable s0 s →
  (∀ r, r ≠ Entry_WG e → wg_get s r = wg_get s0 r)
  ∧ ch_workers <$> st_chans s = ch_workers <$> st_chans s0.
Proof.
  intros Hpc Hidle Hreach.
  refine (rtc_ind_r
            (λ s, (∀ r, r ≠ Entry_WG e → wg_get s r = wg_get s0 r)
                  ∧ ch_workers <$> st_chans s = ch_workers <$> st_chans s0)
            s0 _ _ s Hreach).
  - done.
  - intros s1 s2 Hreach1 Hstep [IHwg IHw]. apply step_Transition in Hstep.
    pose proof (Inv_reachable e k s0 Hpc s1 Hidle Hreach1) as HI. split.
    + intros r Hr. rewrite <- (IHwg r Hr). by apply (others_step e k s0).
    + rewrite <- IHw. by apply workers_step.
Qed.

Lemma inflight_zero (l : list ChanState) :
  sum_list_with held l = 0 → Forall (λ c, ch_buf c = [] ∧ ch_busy c = []) l.
Proof.
  induction l as [|c l IH]; cbn [sum_list_with]; intros Hsum; [done|].
  constructor; [|apply IH; lia].
  unfold held in Hsum. split.
  - destruct (ch_buf c); [done | cbn in Hsum; lia].
  - destruct (ch_busy c); [done | cbn in Hsum; lia].
Qed.

Lemma served_workers (level : Level) (s s' : State) :
  ch_workers <$> st_chans s' = ch_workers <$> st_chans s →
  channels (st_logger s') = channels (st_logger s) →
  served level s → served level s'.
Proof.
  intros Hw Htable [Hpos Hin]. split.
  - apply Forall_lookup_2. intros i c' Hc'.
    pose proof (f_equal (fmap ch_workers) Hc') as Hi.
    rewrite <- list_lookup_fmap, Hw, list_lookup_fmap in Hi.
    destruct (st_chans s !! i) as [c|] eqn:Hc; [|done].
    injection Hi as Hi. rewrite <- Hi.
    exact (Forall_lookup_1 _ _ _ _ Hpos Hc).
  - rewrite Htable.
    assert (length (st_chans s') = length (st_chans s)) as ->; [|done].
    by rewrite <- (length_fmap ch_workers), Hw, length_fmap.
Qed.

(** A dispatch that has returned leaves the process as it found it. *)
Lemma returned_idle (e : Entry) (k : Cont) (s0 s : State) :
  st_pc s0 = AtHandleEntry e k → idle s0 → reachable s0 s → returned (st_pc s) →
  idle (Samples.observed s)
  ∧ ∀ level, served level s0 → served level (Samples.observed s).
Proof.
  intros Hpc Hidle Hreach Hret.
  pose proof (Inv_reachable e k s0 Hpc s Hidle Hreach) as HI.
  destruct (frame_reachable e k s0 s Hpc Hidle Hreach) as [Hwg Hw].
  split; [split; [|split; [|done]]|].
  - apply inflight_zero. apply (Inv_reclaiming e k s0 s HI). by destruct (st_pc s).
  - intros r n Hr. cbn in Hr.
    assert (wg_get s r = n) as <- by (unfold wg_get; by rewrite Hr).
    destruct (decide (r = Entry_WG e)) as [->|Hne].
    + by apply (Inv_counter e k s0 s HI).
    + rewrite (Hwg r Hne). by apply idle_wg.
  - intros level. apply served_workers; [done|]. apply (inv_table _ _ _ _ HI).
Qed.

(** X10. When [HandleEntry] has returned, in whatever order the steps were
    taken, the process is as before the call: every buffer is empty, no
    goroutine holds an entry, every WaitGroup is at zero, and the channels
    and their goroutines still serve the levels they served; the Entry is on
    top of its pool.  What holds of a dispatch from an idle state therefore
    holds of the next one. *)
Theorem X10_HandleEntry_restores_idleness (e : Entry) (k : Cont) (s0 s : State) :
  st_pc s0 = AtHandleEntry e k →
  idle s0 →
  reachable s0 s →
  returned (st_pc s) →
  idle (Samples.observed s)
  ∧ (∀ level, served level s0 → served level (Samples.observed s))
  ∧ (∀ level, registered level s = registered level s0)
  ∧ entryPool (st_logger s) = e :: entryPool (st_logger s0).
Proof.
  intros Hpc Hidle Hreach Hret.
  destruct (returned_idle e k s0 s Hpc Hidle Hreach Hret) as [Hi Hs].
  pose proof (Inv_reachable e k s0 Hpc s Hidle Hreach) as HI.
  split; [done|]. split; [done|]. split.
  - intros level. unfold registered. by rewrite (inv_table _ _ _ _ HI).
  - by destruct (Inv_returned e k s0 s HI Hret) as (_ & _ & _ & _ & ?).
Qed.

(** *** The calls that return *)

Section Leveled.

Variable Sprint : list Any → string.
Variable Sprintf : string → list Any → string.

(** X11. [Debug], [Info], [Warn], [Error] and their formatted variants make
    an Entry at their level with the rendered message and no field, and
    dispatch it.  From an idle state whose channels each have a consuming
    goroutine, the scheduler brings the call to its return; however the
    steps are scheduled there are boundedly many, something can move until
    the call has returned, the call ends in no other way and nothing exits
    or panics; and after the return the process is idle and served
    again. *)
Theorem X11_leveled_calls_return (v : list Any) (msg : string) (now : Time)
  (level : Level) (m : string) (s0 s1 : State) :
  idle s0 → served level s0 →
  (level = DebugLevel
   ∧ (m = Sprint v ∧ s1 = Debug Sprint v now s0
      ∨ m = Sprintf msg v ∧ s1 = Debugf Sprintf msg v now s0))
  ∨ (level = InfoLevel
     ∧ (m = Sprint v ∧ s1 = Info Sprint v now s0
        ∨ m = Sprintf msg v ∧ s1 = Infof Sprintf msg v now s0))
  ∨ (level = WarnLevel
     ∧ (m = Sprint v ∧ s1 = Warn Sprint v now s0
        ∨ m = Sprintf msg v ∧ s1 = Warnf Sprintf msg v now s0))
  ∨ (level = ErrorLevel
     ∧ (m = Sprint v ∧ s1 = Error Sprint v now s0
        ∨ m = Sprintf msg v ∧ s1 = Errorf Sprintf msg v now s0)) →
  ∃ e,
    st_pc s1 = AtHandleEntry e KReturn
    ∧ Entry_Level e = level ∧ Entry_Message e = m ∧ Entry_Fields e = []
    ∧ st_pc (run (weight s1) s1) = Done Returned
    ∧ (∀ n s, nsteps step n s1 s → n ≤ weight s1)
    ∧ ∀ s, reachable s1 s →
        ((∀ o, st_pc s ≠ Done o) → ∃ s', step s s')
        ∧ (∀ o, st_pc s = Done o → o = Returned)
        ∧ Forall (λ ev, ¬ is_fatal ev) (st_trace s)
        ∧ (returned (st_pc s) →
           idle (Samples.observed s)
           ∧ ∀ level', served level' s0 → served level' (Samples.observed s)).
Proof.
  intros Hidle Hserved Hs1.
  assert (s1 = called level m KReturn now s0) as ->.
  { destruct Hs1 as [[-> [[-> ->]|[-> ->]]]|[[-> [[-> ->]|[-> ->]]]
      |[[-> [[-> ->]|[-> ->]]]|[-> [[-> ->]|[-> ->]]]]]]; done. }
  destruct (DispatchTheorems.logAt_spec level m KReturn now s0 Hidle Hserved)
    as (Hpc & Hl & Hm & Hf & Hend & Hbound & Hsafe).
  exists (made level m now s0). do 6 (split; [done|]).
  intros s Hreach. destruct (Hsafe s Hreach) as (Hlive & Hout & _).
  pose proof (called_idle level m KReturn now s0 Hidle) as Hidle1.
  destruct (called_state level m KReturn now s0) as (_ & Hchans & _ & Htable).
  split; [done|]. split; [done|]. split.
  - apply (calm_reachable (called level m KReturn now s0)); [|done]. split.
    + destruct Hidle1 as (_ & _ & ->). constructor.
    + left. by rewrite Hpc.
  - intros Hret.
    destruct (returned_idle _ _ _ s Hpc Hidle1 Hreach Hret) as [Hi Hs].
    split; [done|]. intros level' Hserved'. apply Hs.
    apply (served_workers level' s0); [by rewrite Hchans | done | done].
Qed.

End Leveled.

(** *** A channel that nobody consumes from *)

Section Blocked.

Variables (e : Entry) (k : Cont) (ch : Chan) (chs : list Chan) (s0 : State).
Hypothesis Hstart : st_pc s0 = AtHandleEntry e k.
Hypothesis Hidle : idle s0.
Hypothesis Hroute : channels (st_logger s0) !! Entry_Level e = Some (ch :: chs).
Hypothesis Hnobody :
  ∀ c, st_chans s0 !! ch = Some c → ch_cap c = 0 ∧ ch_workers c = 0.

Lemma blocked_step (s s' : State) :
  st_chans s = st_chans s0 →
  channels (st_logger s) = channels (st_logger s0) →
  st_pc s = AtHandleEntry e k ∨ st_pc s = AtSend e e (ch :: chs) k →
  Forall (λ ev, ¬ is_reclaim ev) (st_trace s) →
  Transition s s' →
  st_pc s = AtHandleEntry e k
  ∧ st_chans s' = st_chans s0
  ∧ channels (st_logger s') = channels (st_logger s0)
  ∧ st_pc s' = AtSend e e (ch :: chs) k
  ∧ Forall (λ ev, ¬ is_reclaim ev) (st_trace s').
Proof.
  intros Hchans Htable Hat Hquiet Ht.
  destruct Hidle as (Hempty & _ & _).
  destruct Ht as
    [s e' k' chs' Hpc Hchs|s e' k' Hpc Hchs|s e' entry ch' chs' k' c Hpc Hc Hroom
    |s e' entry ch' chs' k' c Hpc Hc Hfull Hcap Hready|s e' entry k' Hpc
    |s e' k' Hpc Hwg|s e' f fs k' Hpc|s e' k' Hpc|s Hpc|s code Hpc|s v Hpc
    |s ch' c x buf Hc Hbuf Hready|s ch' c i x Hc Hx];
    try (destruct Hat as [Hat|Hat]; congruence).
  - destruct Hat as [Hat|Hat]; [|congruence].
    rewrite Hpc in Hat. injection Hat as -> ->.
    rewrite Htable, Hroute in Hchs. injection Hchs as <-.
    split; [done|]. simpl_state. do 3 (split; [done|]).
    constructor; [by intros [] | done].
  - destruct Hat as [Hat|Hat]; [congruence|].
    rewrite Hpc in Hat. injection Hat as -> -> -> -> ->.
    rewrite Hchans in Hc. destruct (Hnobody c Hc) as [Hcap _].
    destruct (Forall_lookup_1 _ _ _ _ Hempty Hc) as [Hbuf _].
    rewrite Hbuf, Hcap in Hroom. cbn in Hroom. lia.
  - destruct Hat as [Hat|Hat]; [congruence|].
    rewrite Hpc in Hat. injection Hat as -> -> -> -> ->.
    rewrite Hchans in Hc. destruct (Hnobody c Hc) as [_ Hw]. lia.
  - rewrite Hchans in Hc.
    destruct (Forall_lookup_1 _ _ _ _ Hempty Hc) as [Hnil _]. congruence.
  - rewrite Hchans in Hc.
    destruct (Forall_lookup_1 _ _ _ _ Hempty Hc) as [_ Hnil].
    rewrite Hnil in Hx. done.
Qed.

Lemma blocked_reachable (s : State) :
  reachable s0 s →
  st_chans s = st_chans s0
  ∧ channels (st_logger s) = channels (st_logger s0)
  ∧ (st_pc s = AtHandleEntry e k ∨ st_pc s = AtSend e e (ch :: chs) k)
  ∧ Forall (λ ev, ¬ is_reclaim ev) (st_trace s).
Proof.
  intros Hreach.
  refine (rtc_ind_r
            (λ s, st_chans s = st_chans s0
                  ∧ channels (st_logger s) = channels (st_logger s0)
                  ∧ (st_pc s = AtHandleEntry e k ∨ st_pc s = AtSend e e (ch :: chs) k)
                  ∧ Forall (λ ev, ¬ is_reclaim ev) (st_trace s))
            s0 _ _ s Hreach).
  - split; [done|]. split; [done|]. split; [by left|].
    destruct Hidle as (_ & _ & ->). constructor.
  - intros s1 s2 _ Hstep (Hc & Ht & Hat & Hq). apply step_Transition in Hstep.
    destruct (blocked_step s1 s2 Hc Ht Hat Hq Hstep) as (_ & ? & ? & ? & ?).
    split; [done|]. split; [done|]. split; [by right | done].
Qed.

(** X12. When the first channel of the level is unbuffered and has no
    goroutine receiving from it, or was never made, [HandleEntry] never
    returns: after [WG.Add] the producer is blocked on the send for ever,
    nothing else can move, and neither the Fields nor the Entry go back to
    their pools. *)
Theorem X12_unconsumed_channel_blocks (s : State) :
  reachable s0 s →
  ¬ returned (st_pc s)
  ∧ (∀ o, st_pc s ≠ Done o)
  ∧ Forall (λ ev, ¬ is_reclaim ev) (st_trace s)
  ∧ (st_pc s ≠ AtHandleEntry e k → ¬ ∃ s', step s s')
  ∧ ∃ s1, step s0 s1 ∧ st_pc s1 = AtSend e e (ch :: chs) k ∧ ¬ ∃ s', step s1 s'.
Proof.
  intros Hreach. destruct (blocked_reachable s Hreach) as (Hc & Ht & Hat & Hq).
  split; [destruct Hat as [-> | ->]; by intros []|].
  split; [intros o; by destruct Hat as [-> | ->]|].
  split; [done|]. split.
  - intros Hne [s' Hstep]. apply step_Transition in Hstep.
    by destruct (blocked_step s s' Hc Ht Hat Hq Hstep) as (? & _).
  - assert (∃ s1, prod_step s0 = Some s1 ∧ st_pc s1 = AtSend e e (ch :: chs) k)
      as (s1 & Hs1 & Hpc1).
    { unfold prod_step. rewrite Hstart, Hroute. by eexists. }
    assert (step s0 s1) as Hstep by (by exists Produce).
    exists s1. split; [done|]. split; [done|].
    assert (reachable s0 s1) as Hreach1 by (by apply rtc_once).
    destruct (blocked_reachable s1 Hreach1) as (Hc1 & Ht1 & Hat1 & Hq1).
    intros [s' Hstep']. apply step_Transition in Hstep'.
    destruct (blocked_step s1 s' Hc1 Ht1 Hat1 Hq1 Hstep') as (Hbad & _).
    congruence.
Qed.

End Blocked.

(** *** Fields, from the pool and back *)

Lemma makeFields_spec (kvs : list (string * Any)) (s : State) :
  (More.makeFields kvs s).1 = (λ kv, mkField kv.1 kv.2) <$> kvs
  ∧ fieldPool (st_logger (More.makeFields kvs s).2)
    = drop (length kvs) (fieldPool (st_logger s))
  ∧ entryPool (st_logger (More.makeFields kvs s).2) = entryPool (st_logger s)
  ∧ channels (st_logger (More.makeFields kvs s).2) = channels (st_logger s)
  ∧ st_chans (More.makeFields kvs s).2 = st_chans s
  ∧ st_wg (More.makeFields kvs s).2 = st_wg s
  ∧ st_trace (More.makeFields kvs s).2 = st_trace s.
Proof.
  revert s. induction kvs as [|[key value] kvs IH]; intros s; [done|].
  cbn [More.makeFields]. unfold F.
  set (s' := set_logger _ s). specialize (IH s').
  destruct (More.makeFields kvs s') as [fs s'']. cbn [fst snd] in *.
  destruct IH as (-> & Hfp & Hep & Hch & Hcs & Hwg & Htr).
  rewrite Hfp, Hep, Hch, Hcs, Hwg, Htr.
  split; [done|]. split; [|done].
  unfold s'. cbn.
  destruct (fieldPool (st_logger s)); cbn [tail]; [by rewrite !drop_nil | done].
Qed.

(** X13. Fields from [F] to [HandleEntry] and back: successive calls of [F]
    give the Fields with the keys and values asked for, in order, and take
    one Field each from the pool as long as it has some; when [HandleEntry]
    has returned from the dispatch of an Entry with these Fields, they are
    all in the pool again, most recent first, above what [F] had left
    there.  The pool never ends up smaller than it was. *)
Theorem X13_fields_return_to_pool (kvs : list (string * Any)) (e : Entry)
  (k : Cont) (s0 s : State) :
  idle s0 →
  Entry_Fields e = (More.makeFields kvs s0).1 →
  reachable (HandleEntry e k (More.makeFields kvs s0).2) s →
  returned (st_pc s) →
  Entry_Fields e = (λ kv, mkField kv.1 kv.2) <$> kvs
  ∧ fieldPool (st_logger s)
    = rev (Entry_Fields e) ++ drop (length kvs) (fieldPool (st_logger s0))
  ∧ length (fieldPool (st_logger s0)) ≤ length (fieldPool (st_logger s)).
Proof.
  intros Hidle Hfs Hreach Hret.
  destruct (makeFields_spec kvs s0) as (Hmade & Hpool & _ & _ & Hchans & Hwg & Htr).
  set (s1 := HandleEntry e k (More.makeFields kvs s0).2) in *.
  assert (idle s1) as Hidle1.
  { destruct Hidle as (? & ? & ?). unfold idle, s1. cbn.
    by rewrite Hchans, Hwg, Htr. }
  pose proof (Inv_reachable e k s1 eq_refl s Hidle1 Hreach) as HI.
  destruct (Inv_returned e k s1 s HI Hret) as (_ & _ & _ & Hfp & _).
  assert (fieldPool (st_logger s1) = drop (length kvs) (fieldPool (st_logger s0)))
    as Hpool1 by exact Hpool.
  rewrite Hpool1 in Hfp. rewrite Hfs, Hmade at 1.
  split; [done|]. split; [done|].
  rewrite Hfp, length_app, length_rev, Hfs, Hmade, length_fmap, length_drop. lia.
Qed.

(** *** Registration *)

Lemma register_ready (cap workers : nat) (levels : list Level) (s : State) :
  1 ≤ workers →
  idle (Samples.observed s) → (∀ level, served level s) →
  idle (Samples.observed (RegisterHandler (channelHandler cap workers) levels s))
  ∧ ∀ level, served level (RegisterHandler (channelHandler cap workers) levels s).
Proof.
  intros Hw (Hempty & Hzero & _) Hserved. cbn in Hempty, Hzero.
  unfold RegisterHandler, channelHandler. cbn [Run].
  split; [split; [|split; [|done]]|].
  - cbn. apply Forall_app. split; [done|]. by constructor.
  - done.
  - intros level. destruct (Hserved level) as [Hpos Hin]. split.
    + cbn. apply Forall_app. split; [done|]. by constructor.
    + cbn [set_logger st_logger st_chans log_event].
      fold (registered level s) in Hin.
      rewrite DispatchTheorems.registerLevel_fold. rewrite length_app. cbn [length].
      apply Forall_app. split.
      * eapply Forall_impl; [exact Hin|]. cbn. intros; lia.
      * apply Forall_replicate. lia.
Qed.

Lemma registerAll_ready (hs : list (nat * nat * list Level)) (s : State) :
  Forall (λ h, 1 ≤ h.1.2) hs →
  idle (Samples.observed s) → (∀ level, served level s) →
  idle (Samples.observed (More.registerAll hs s))
  ∧ ∀ level, served level (More.registerAll hs s).
Proof.
  intros Hhs. revert s. induction Hhs as [|h hs Hh _ IH]; intros s Hidle Hserved.
  - done.
  - unfold More.registerAll. cbn [foldl]. apply IH.
    + by apply register_ready.
    + by apply register_ready.
Qed.

(** X14. Registration keeps the logger ready.  After any number of
    handlers have been registered, for any levels, each with a channel of
    any capacity and at least one goroutine receiving from it, every
    dispatch, at every level and with every continuation, is brought to its
    end by the scheduler, and in no execution of it does the process get
    stuck before that end. *)
Theorem X14_registered_handlers_serve (hs : list (nat * nat * list Level))
  (e : Entry) (k : Cont) (s0 s : State) :
  Forall (λ h, 1 ≤ h.1.2) hs →
  idle (Samples.observed s0) → (∀ level, served level s0) →
  let s1 := HandleEntry e k (Samples.observed (More.registerAll hs s0)) in
  st_pc (run (weight s1) s1) = Done (outcome_of k)
  ∧ (reachable s1 s → (∀ o, st_pc s ≠ Done o) → ∃ s', step s s').
Proof.
  intros Hhs Hidle Hserved s1.
  destruct (registerAll_ready hs s0 Hhs Hidle Hserved) as [Hi Hs].
  assert (idle s1) as Hidle1 by exact Hi.
  assert (served (Entry_Level e) s1) as Hserved1 by exact (Hs (Entry_Level e)).
  split.
  - by apply (dispatch_ends e k).
  - by apply (no_deadlock e k s1).
Qed.

End DispatchMore.

Module DispatchMoreWitnesses.
Import Log Dispatch DispatchLive DispatchMore.

Lemma X9_each_channel_acknowledges_witness :
  let s := run 40 Samples.errorDispatch in
  st_pc s = Done Returned
  ∧ More.consumedBy 0 (st_trace s) = 1
  ∧ More.consumedBy 1 (st_trace s) = 1
  ∧ More.consumedBy 2 (st_trace s) = 0.
Proof.
  intros s.
  pose proof (X9_each_channel_acknowledges Samples.errorEntry KReturn
                Samples.errorDispatch s eq_refl Witnesses.state2_idle
                (run_reachable 40 Samples.errorDispatch)) as (_ & _ & Hret).
  assert (st_pc s = Done Returned) as Hpc by reflexivity.
  split; [done|].
  assert (returned (st_pc s)) as Hr by (by rewrite Hpc).
  destruct (Hret Hr 0) as [H0 _]. destruct (Hret Hr 1) as [H1 _].
  destruct (Hret Hr 2) as [H2 _]. done.
Defined.

Lemma X10_HandleEntry_restores_idleness_witness :
  let s := run 40 Samples.errorDispatch in
  idle (Samples.observed s)
  ∧ served ErrorLevel (Samples.observed s)
  ∧ entryPool (st_logger s) = [Samples.errorEntry].
Proof.
  intros s.
  pose proof (X10_HandleEntry_restores_idleness Samples.errorEntry KReturn
                Samples.errorDispatch s eq_refl Witnesses.state2_idle
                (run_reachable 40 Samples.errorDispatch) I)
    as (Hidle & Hserved & _ & Hpool).
  split; [done|]. split; [|done].
  apply Hserved. exact (Witnesses.state2_served ErrorLevel).
Defined.

Lemma X11_leveled_calls_return_witness :
  let s1 := Info Samples.sprint [AString "started"] Samples.T0 Samples.state2 in
  st_pc (run (weight s1) s1) = Done Returned
  ∧ Forall (λ ev, ¬ is_fatal ev) (st_trace (run 5 s1)).
Proof.
  intros s1.
  destruct (X11_leveled_calls_return Samples.sprint Samples.sprintf
              [AString "started"] "" Samples.T0 InfoLevel "started"
              Samples.state2 s1 Witnesses.state2_idle
              (Witnesses.state2_served InfoLevel))
    as (e & _ & _ & _ & _ & Hend & _ & Hsafe).
  { right. left. split; [done|]. left. by split. }
  split; [done|].
  by destruct (Hsafe (run 5 s1) (run_reachable 5 s1)) as (_ & _ & ? & _).
Defined.

Lemma unservedState_idle : idle MoreSamples.unservedState.
Proof.
  split; [|split].
  - by repeat constructor.
  - apply map_Forall_empty.
  - reflexivity.
Defined.

Lemma X12_unconsumed_channel_blocks_witness :
  let s := run 40 MoreSamples.unservedDispatch in
  ¬ returned (st_pc s) ∧ Forall (λ ev, ¬ is_reclaim ev) (st_trace s).
Proof.
  intros s.
  destruct (X12_unconsumed_channel_blocks (Samples.startedEntry Samples.T0 7)
              KReturn 0 [] MoreSamples.unservedDispatch eq_refl
              unservedState_idle eq_refl) with (s := s)
    as (Hret & _ & Hq & _).
  - intros c [= <-]. done.
  - apply run_reachable.
  - done.
Defined.

Lemma X13_fields_return_to_pool_witness :
  let kvs := [("port"%string, AInt 8080); ("ok"%string, ABool false)] in
  let s := run 40 (HandleEntry Samples.errorEntry KReturn
                     (More.makeFields kvs Samples.state2).2) in
  fieldPool (st_logger s) = [mkField "ok" (ABool false); mkField "port" (AInt 8080)].
Proof.
  intros kvs s.
  destruct (X13_fields_return_to_pool kvs Samples.errorEntry KReturn
              Samples.state2 s Witnesses.state2_idle eq_refl (run_reachable 40 _) I)
    as (_ & Hpool & _).
  exact Hpool.
Defined.

Lemma state0_idle : idle (Samples.observed Samples.state0).
Proof.
  split; [|split].
  - constructor.
  - apply map_Forall_empty.
  - reflexivity.
Defined.

Lemma state0_served (level : Level) : served level Samples.state0.
Proof. split; [constructor|]. destruct level; vm_compute; constructor. Defined.

Lemma X14_registered_handlers_serve_witness :
  let hs := [(2, 1, [InfoLevel; ErrorLevel]); (0, 2, [ErrorLevel])] in
  let s1 := HandleEntry Samples.errorEntry (KExit 1)
              (Samples.observed (More.registerAll hs Samples.state0)) in
  st_pc (run (weight s1) s1) = Done (Exited 1).
Proof.
  intros hs s1.
  destruct (X14_registered_handlers_serve hs Samples.errorEntry (KExit 1)
              Samples.state0 s1) as [Hend _].
  - repeat constructor.
  - exact state0_idle.
  - exact state0_served.
  - exact Hend.
Defined.

End DispatchMoreWitnesses.
